(** * Favourites controller of the Pokédex backend

    A shallow embedding of [backend/controllers/favouriteController.js]:
    the three Express handlers [createFavourite], [readFavourite] and
    [deleteFavourite], the rows they read and write, and the replies they
    produce.  Every [await] of the source is one [Await] node of a handler
    program, so the same definition gives the handler run on its own
    ([run]) and two handlers interleaved at their await points ([step]).
    The handlers [_login] and [_register] of the client's [AuthBloc] are
    embedded the same way, cut at their emits and repository calls. *)

From stdpp Require Import base option list gmap strings pretty.
From Stdlib Require Import ZArith Lia.

(** ** Rows and tables *)

(** A row of the favourites join table. *)
Record Favourite := { user_id : Z; pokemon_id : Z }.

Global Instance Favourite_eq_dec : EqDecision Favourite.
Proof. solve_decision. Defined.

(** Modelled from the spec: the three tables of db/models, which the
    controller imports and whose declarations are missing.
    User rows are referenced by id only, so the table is the set of its
    primary keys; the Pokémon catalog is keyed by its primary key and of
    its columns only the name is read here; the favourites table is a bag
    of (user_id, pokemon_id) rows kept in insertion order. *)
Record Db := {
  User_rows : gset Z;
  Pokemon_rows : gmap Z string;
  Favourite_rows : list Favourite;
}.

Definition set_Favourite_rows (rows : list Favourite) (db : Db) : Db :=
  {| User_rows := User_rows db;
     Pokemon_rows := Pokemon_rows db;
     Favourite_rows := rows |}.

(** The [where: { user_id, pokemon_id }] clause of the two [findOne] calls. *)
Definition same_pair (uid pid : Z) (f : Favourite) : Prop :=
  user_id f = uid ∧ pokemon_id f = pid.

Global Instance same_pair_dec uid pid f : Decision (same_pair uid pid f).
Proof. unfold same_pair. apply _. Defined.

Definition rows_for (uid pid : Z) (rows : list Favourite) : list Favourite :=
  filter (same_pair uid pid) rows.

Definition rows_of_user (uid : Z) (rows : list Favourite) : list Favourite :=
  filter (λ f, user_id f = uid) rows.

(** The invariant of the data model: at most one row per pair. *)
Definition unique_pairs (rows : list Favourite) : Prop :=
  ∀ uid pid, length (rows_for uid pid rows) ≤ 1.

(** Every favourite row points at a catalog entry. *)
Definition references_pokemon (db : Db) : Prop :=
  ∀ f, f ∈ Favourite_rows db → is_Some (Pokemon_rows db !! pokemon_id f).

(** ** Errors, replies and asynchronous programs *)

Inductive Error :=
  | AppError (message : string) (statusCode : Z)
  | TypeError
  | SequelizeUniqueConstraintError.

(** The instance [User.findByPk] returns with [attributes: []] and the
    [pokemons] association included with attributes id and name. *)
Record UserInstance := { pokemons : list (Z * string) }.

Inductive Json :=
  | JsonFavourite (status : string) (data : Favourite)
  | JsonUser (status : string) (data : UserInstance)
  | JsonMessage (status message : string).

(** The Express response as the client gets it: [res.status(code)] sets
    the status and [.json(obj)] sends [obj] as the body, except that the
    [send] it ends in leaves the body empty when the status is 204 or
    304. *)
Record Response := { statusCode : Z; body : option Json }.

Definition res_status (code : Z) : Response :=
  {| statusCode := code; body := None |}.

Definition res_json (obj : Json) (res : Response) : Response :=
  {| statusCode := statusCode res;
     body := if (statusCode res =? 204)%Z || (statusCode res =? 304)%Z
             then None
             else Some obj |}.

(** What a handler ends with: a response sent, or [next(err)]. *)
Inductive Reply :=
  | Sent (res : Response)
  | Next (err : Error).

Inductive Settled (A : Type) :=
  | Resolved (a : A)
  | Rejected (e : Error).
Arguments Resolved {A} a.
Arguments Rejected {A} e.

(** One store operation: it runs atomically on the tables and settles. *)
Definition Async (A : Type) : Type := Db → Db * Settled A.

(** A handler body, cut at its [await]s. *)
Inductive Prog (R : Type) : Type :=
  | Return (r : R)
  | Throw (e : Error)
  | Await (X : Type) (op : Async X) (k : X → Prog R).
Arguments Return {R} r.
Arguments Throw {R} e.
Arguments Await {R X} op k.

Notation "'await' x ← op ; k" := (Await op (λ x, k))
  (at level 10, x name, op at level 100, k at level 200, only parsing).

(** Running a handler body to the end, with nothing in between. *)
Fixpoint run {R : Type} (p : Prog R) (db : Db) : Db * Settled R :=
  match p with
  | Return r => (db, Resolved r)
  | Throw e => (db, Rejected e)
  | Await op k =>
      match op db with
      | (db', Resolved x) => run (k x) db'
      | (db', Rejected e) => (db', Rejected e)
      end
  end.

(** Running it up to and including its next [await]. *)
Definition step {R : Type} (p : Prog R) (db : Db) : Db * Prog R :=
  match p with
  | Await op k =>
      match op db with
      | (db', Resolved x) => (db', k x)
      | (db', Rejected e) => (db', Throw e)
      end
  | _ => (db, p)
  end.

Definition settled {R : Type} (p : Prog R) : option (Settled R) :=
  match p with
  | Return r => Some (Resolved r)
  | Throw e => Some (Rejected e)
  | Await _ _ => None
  end.

(** Modelled from the spec: utils/catchAsync, which the controller
    imports and whose source is missing.  Errors are caught and surfaced to the caller: a
    rejected handler body is handed to [next]. *)
Definition catchAsync {Req : Type} (fn : Req → Prog Reply)
    (req : Req) (db : Db) : Db * Reply :=
  match run (fn req) db with
  | (db', Resolved r) => (db', r)
  | (db', Rejected e) => (db', Next e)
  end.

Definition reply_of (s : Settled Reply) : Reply :=
  match s with
  | Resolved r => r
  | Rejected e => Next e
  end.

(** ** The model layer *)

(** [Pokemon.findByPk(pk)]. *)
Definition Pokemon_findByPk (pk : Z) : Async (option (Z * string)) :=
  λ db, (db, Resolved (pair pk <$> Pokemon_rows db !! pk)).

(** [Favourite.findOne({ where: { user_id, pokemon_id } })]. *)
Definition Favourite_findOne (uid pid : Z) : Async (option Favourite) :=
  λ db, (db, Resolved (head (rows_for uid pid (Favourite_rows db)))).

(** [User.findByPk(pk, { attributes: [], include: [pokemons] })]: the
    user's favourite rows joined with the catalog, projected to id and
    name.  The query has no ORDER BY: the order of the list is the
    table's here and no theorem relies on it.  On a table with at most
    one row per pair each of the user's rows gives one entry. *)
Definition join_catalog (catalog : gmap Z string) (rows : list Favourite)
    : list (Z * string) :=
  omap (λ f, pair (pokemon_id f) <$> catalog !! pokemon_id f) rows.

Definition joined_pokemons (uid : Z) (db : Db) : list (Z * string) :=
  join_catalog (Pokemon_rows db) (rows_of_user uid (Favourite_rows db)).

Definition User_findByPk_include_pokemons (pk : Z)
    : Async (option UserInstance) :=
  λ db, (db, Resolved (if decide (pk ∈ User_rows db)
                       then Some {| pokemons := joined_pokemons pk db |}
                       else None)).

(** [favourite.destroy()]: takes the found instance out of the table.
    On a table with at most one row per pair, which is what the theorems
    about removal are stated for, the instance is the only row of its
    pair, and that is what is filtered out here. *)
Definition Favourite_destroy (f : Favourite) : Async unit :=
  λ db, (set_Favourite_rows
           (filter (λ g, ¬ same_pair (user_id f) (pokemon_id f) g)
                   (Favourite_rows db)) db,
         Resolved tt).

(** The part of the Express request the handlers read; the session
    middleware has attached the acting user.  The route parameter is
    taken as the key it denotes. *)
Record Request := {
  params_pokemon_id : Z;   (* req.params.pokemon_id *)
  user_id_of : Z;          (* req.user.id *)
}.

(** A model instance is an object, and objects are truthy. *)
Definition truthy {A : Type} (_ : A) : bool := true.

Section Controller.

(** Modelled from the spec: the composite uniqueness constraint on
    (user_id, pokemon_id) of the favourites table, whose declaration
    (db/models/favourite) is missing.  It is a parameter of the store:
    with [true] a second row of a pair is refused with a
    unique-constraint error, as the specification has it; with [false]
    the store takes any row. *)
Variable unique_constraint : bool.

(** [Favourite.create({ user_id, pokemon_id })]. *)
Definition Favourite_create (uid pid : Z) : Async Favourite :=
  λ db,
    if unique_constraint
       && bool_decide (rows_for uid pid (Favourite_rows db) ≠ [])
    then (db, Rejected SequelizeUniqueConstraintError)
    else
      let favourite := {| user_id := uid; pokemon_id := pid |} in
      (set_Favourite_rows (Favourite_rows db ++ [favourite]) db,
       Resolved favourite).

(** ** The handlers *)

Definition createFavourite_body (req : Request) : Prog Reply :=
  let pokemon_id := params_pokemon_id req in
  let user := user_id_of req in
  await pokemon ← Pokemon_findByPk pokemon_id;
  if negb (bool_decide (is_Some pokemon)) then
    Return (Next (AppError
      ("Pokémon with id " +:+ pretty pokemon_id +:+ " not found") 404))
  else
  await existingFavourite ← Favourite_findOne user pokemon_id;
  if bool_decide (is_Some existingFavourite) then
    Return (Next (AppError
      ("User with id " +:+ pretty user
         +:+ " has already liked the Pokémon with id " +:+ pretty pokemon_id)
      400))
  else
  await favourite ← Favourite_create user pokemon_id;
  if negb (truthy favourite) then
    Return (Next (AppError "Failed to add Pokémon to favourites" 400))
  else
    Return (Sent (res_json (JsonFavourite "Success" favourite)
                           (res_status 201))).

Definition createFavourite : Request → Db → Db * Reply :=
  catchAsync createFavourite_body.

End Controller.

Definition readFavourite_body (req : Request) : Prog Reply :=
  await user ← User_findByPk_include_pokemons (user_id_of req);
  match user with
  | None => Throw TypeError      (* user.pokemons on null *)
  | Some u =>
      if negb (truthy (pokemons u)) || (length (pokemons u) =? 0)%nat then
        Return (Next (AppError
          ("No favourite Pokémon found for user with id "
             +:+ pretty (user_id_of req)) 404))
      else
        Return (Sent (res_json (JsonUser "Success" u) (res_status 200)))
  end.

Definition readFavourite : Request → Db → Db * Reply :=
  catchAsync readFavourite_body.

Definition deleteFavourite_body (req : Request) : Prog Reply :=
  let pokemon_id := params_pokemon_id req in
  let user := user_id_of req in
  await favourite ← Favourite_findOne user pokemon_id;
  match favourite with
  | None =>
      Return (Next (AppError
        ("User " +:+ pretty user +:+ " doesn't like pokemon with id "
           +:+ pretty pokemon_id) 404))
  | Some favourite =>
      await _ ← Favourite_destroy favourite;
      Return (Sent (res_json
        (JsonMessage "Success"
           ("User " +:+ pretty user
              +:+ " no longer likes pokemon with id" +:+ pretty pokemon_id))
        (res_status 204)))
  end.

Definition deleteFavourite : Request → Db → Db * Reply :=
  catchAsync deleteFavourite_body.

(** ** The errors the handlers pass to [next] *)

Definition err_pokemon_not_found (pid : Z) : Error :=
  AppError ("Pokémon with id " +:+ pretty pid +:+ " not found") 404.

Definition err_already_liked (uid pid : Z) : Error :=
  AppError ("User with id " +:+ pretty uid
              +:+ " has already liked the Pokémon with id " +:+ pretty pid)
           400.

Definition err_no_favourites (uid : Z) : Error :=
  AppError ("No favourite Pokémon found for user with id " +:+ pretty uid)
           404.

Definition err_not_liked (uid pid : Z) : Error :=
  AppError ("User " +:+ pretty uid +:+ " doesn't like pokemon with id "
              +:+ pretty pid) 404.

Definition favourite_of (req : Request) : Favourite :=
  {| user_id := user_id_of req; pokemon_id := params_pokemon_id req |}.

Definition created (req : Request) : Reply :=
  Sent {| statusCode := 201;
          body := Some (JsonFavourite "Success" (favourite_of req)) |}.

Definition listed (l : list (Z * string)) : Reply :=
  Sent {| statusCode := 200;
          body := Some (JsonUser "Success" {| pokemons := l |}) |}.

Definition deleted (req : Request) : Reply :=
  Sent (res_json
    (JsonMessage "Success"
       ("User " +:+ pretty (user_id_of req)
          +:+ " no longer likes pokemon with id"
          +:+ pretty (params_pokemon_id req)))
    (res_status 204)).

(** ** Sequences of operations *)

Inductive Op :=
  | AddFavourite (req : Request)
  | RemoveFavourite (req : Request).

Definition perform (uq : bool) (o : Op) (db : Db) : Db :=
  match o with
  | AddFavourite req => (createFavourite uq req db).1
  | RemoveFavourite req => (deleteFavourite req db).1
  end.

(** The tables after each operation of a sequence, in order. *)
Fixpoint history (uq : bool) (ops : list Op) (db : Db) : list Db :=
  match ops with
  | [] => []
  | o :: ops => let db' := perform uq o db in db' :: history uq ops db'
  end.

(** The example of the specification: user 7 and pokemon 25. *)
Definition pikachu_db (rows : list Favourite) : Db :=
  {| User_rows := {[ 7%Z ]};
     Pokemon_rows := {[ 25%Z := "Pikachu" ]};
     Favourite_rows := rows |}.

Definition ash_likes (pid : Z) : Request :=
  {| params_pokemon_id := pid; user_id_of := 7 |}.

(** Whether a handler ended by sending a response with the given status. *)
Definition sent_with_status (code : Z) (r : Reply) : Prop :=
  match r with
  | Sent res => statusCode res = code
  | Next _ => False
  end.


(** ** Two add requests in flight *)

Inductive Turn := First | Second.

Global Instance Turn_eq_dec : EqDecision Turn.
Proof. solve_decision. Defined.

(** The tables and the two handler bodies, each stopped at an [await]. *)
Record Flight := {
  store : Db;
  first : Prog Reply;
  second : Prog Reply;
}.

(** The request whose turn it is runs up to its next [await]; a handler
    that has ended stays as it is. *)
Definition take_turn (t : Turn) (s : Flight) : Flight :=
  match t with
  | First =>
      let '(db', p) := step (first s) (store s) in
      {| store := db'; first := p; second := second s |}
  | Second =>
      let '(db', p) := step (second s) (store s) in
      {| store := db'; first := first s; second := p |}
  end.

Fixpoint interleave (sched : list Turn) (s : Flight) : Flight :=
  match sched with
  | [] => s
  | t :: sched => interleave sched (take_turn t s)
  end.

Definition turns_of (t : Turn) (sched : list Turn) : nat :=
  length (filter (λ t', t' = t) sched).

(** Modelled from the spec: the error middleware behind [next], whose
    source is missing.  A request observes a Conflict when [next] is handed
    the controller's own 400 "already liked" error or the unique-constraint
    error of the store. *)
Definition observes_conflict (req : Request) (r : Reply) : Prop :=
  r = Next (err_already_liked (user_id_of req) (params_pokemon_id req))
  ∨ r = Next SequelizeUniqueConstraintError.

(** *** The stages of [createFavourite] *)

Definition create_insert (uq : bool) (req : Request) : Prog Reply :=
  await favourite ←
    Favourite_create uq (user_id_of req) (params_pokemon_id req);
  if negb (truthy favourite) then
    Return (Next (AppError "Failed to add Pokémon to favourites" 400))
  else
    Return (Sent (res_json (JsonFavourite "Success" favourite)
                           (res_status 201))).

Definition create_check (uq : bool) (req : Request) : Prog Reply :=
  await existingFavourite ←
    Favourite_findOne (user_id_of req) (params_pokemon_id req);
  if bool_decide (is_Some existingFavourite) then
    Return (Next (err_already_liked (user_id_of req)
                                    (params_pokemon_id req)))
  else create_insert uq req.

Inductive Stage :=
  | AtLookup
  | AtCheck
  | AtInsert
  | Ended (s : Settled Reply).

Definition prog_of (uq : bool) (req : Request) (st : Stage) : Prog Reply :=
  match st with
  | AtLookup => createFavourite_body uq req
  | AtCheck => create_check uq req
  | AtInsert => create_insert uq req
  | Ended (Resolved r) => Return r
  | Ended (Rejected e) => Throw e
  end.

Definition stage_step (uq : bool) (req : Request) (st : Stage) (db : Db)
    : Db * Stage :=
  match st with
  | AtLookup =>
      (db, match Pokemon_rows db !! params_pokemon_id req with
           | Some _ => AtCheck
           | None => Ended (Resolved (Next
                       (err_pokemon_not_found (params_pokemon_id req))))
           end)
  | AtCheck =>
      (db, if decide (favourite_of req ∈ Favourite_rows db)
           then Ended (Resolved (Next
                  (err_already_liked (user_id_of req)
                                     (params_pokemon_id req))))
           else AtInsert)
  | AtInsert =>
      if uq && bool_decide (favourite_of req ∈ Favourite_rows db)
      then (db, Ended (Rejected SequelizeUniqueConstraintError))
      else (set_Favourite_rows (Favourite_rows db ++ [favourite_of req]) db,
            Ended (Resolved (created req)))
  | Ended s => (db, Ended s)
  end.

Definition awaits_left (st : Stage) : nat :=
  match st with
  | AtLookup => 3
  | AtCheck => 2
  | AtInsert => 1
  | Ended _ => 0
  end.

(** *** The invariant of two racing adds *)

Definition stage_ok (req : Request) (st : Stage) : Prop :=
  match st with
  | Ended s => s = Resolved (created req) ∨ observes_conflict req (reply_of s)
  | _ => True
  end.

Definition is_created (req : Request) (st : Stage) : Prop :=
  st = Ended (Resolved (created req)).

(** The catalog entry exists, the table has at most one row per pair, a
    request that has ended has seen or stored the row, and the two
    requests have not both stored one. *)
Definition race_inv (req : Request) (db : Db) (st1 st2 : Stage) : Prop :=
  is_Some (Pokemon_rows db !! params_pokemon_id req)
  ∧ unique_pairs (Favourite_rows db)
  ∧ stage_ok req st1 ∧ stage_ok req st2
  ∧ (awaits_left st1 = 0 → favourite_of req ∈ Favourite_rows db)
  ∧ (awaits_left st2 = 0 → favourite_of req ∈ Favourite_rows db)
  ∧ ¬ (is_created req st1 ∧ is_created req st2).

(** The two handler bodies are at stages that satisfy the invariant, with
    at most [n1] and [n2] awaits to go. *)
Definition flight_inv (req : Request) (s : Flight) (n1 n2 : nat) : Prop :=
  ∃ st1 st2,
    first s = prog_of true req st1
    ∧ second s = prog_of true req st2
    ∧ race_inv req (store s) st1 st2
    ∧ awaits_left st1 ≤ n1
    ∧ awaits_left st2 ≤ n2.

(** ** Further notions for the controller *)

(** The acting user of an operation. *)
Definition op_user (o : Op) : Z :=
  match o with
  | AddFavourite req => user_id_of req
  | RemoveFavourite req => user_id_of req
  end.

(** The catalog entries a user has favourite rows for, as a set. *)
Definition favourite_ids (uid : Z) (db : Db) : gset Z :=
  list_to_set (pokemon_id <$> rows_of_user uid (Favourite_rows db)).

(** *** The stages of [deleteFavourite] *)

Definition delete_destroy (req : Request) (favourite : Favourite)
    : Prog Reply :=
  await _ ← Favourite_destroy favourite;
  Return (Sent (res_json
    (JsonMessage "Success"
       ("User " +:+ pretty (user_id_of req)
          +:+ " no longer likes pokemon with id"
          +:+ pretty (params_pokemon_id req)))
    (res_status 204))).

Inductive DeleteStage :=
  | AtFind
  | AtDestroy
  | Gone (s : Settled Reply).

Definition delete_prog_of (req : Request) (st : DeleteStage) : Prog Reply :=
  match st with
  | AtFind => deleteFavourite_body req
  | AtDestroy => delete_destroy req (favourite_of req)
  | Gone (Resolved r) => Return r
  | Gone (Rejected e) => Throw e
  end.

Definition delete_stage_step (req : Request) (st : DeleteStage) (db : Db)
    : Db * DeleteStage :=
  match st with
  | AtFind =>
      (db, if decide (favourite_of req ∈ Favourite_rows db)
           then AtDestroy
           else Gone (Resolved (Next
                  (err_not_liked (user_id_of req) (params_pokemon_id req)))))
  | AtDestroy =>
      (set_Favourite_rows
         (filter (λ g, ¬ same_pair (user_id_of req) (params_pokemon_id req) g)
                 (Favourite_rows db)) db,
       Gone (Resolved (deleted req)))
  | Gone s => (db, Gone s)
  end.

Definition delete_awaits_left (st : DeleteStage) : nat :=
  match st with
  | AtFind => 2
  | AtDestroy => 1
  | Gone _ => 0
  end.

Definition delete_stage_ok (req : Request) (st : DeleteStage) : Prop :=
  match st with
  | Gone s =>
      s = Resolved (deleted req)
      ∨ s = Resolved (Next (err_not_liked (user_id_of req)
                                          (params_pokemon_id req)))
  | _ => True
  end.

(** The request has found the row and destroys it, or has done so. *)
Definition delete_wins (req : Request) (st : DeleteStage) : Prop :=
  st = AtDestroy ∨ st = Gone (Resolved (deleted req)).

(** Relative to the rows [rows0] the two removes started from: the table
    is still [rows0] or is [rows0] without the pair and one remove has
    answered 204; a remove that has ended has left no row of the pair;
    if the pair had a row, a remove that looked first has found it; and
    if it had none, no remove finds one. *)
Definition delete_race_inv (req : Request) (rows0 : list Favourite)
    (db : Db) (st1 st2 : DeleteStage) : Prop :=
  let gone :=
    filter (λ g, ¬ same_pair (user_id_of req) (params_pokemon_id req) g)
           rows0 in
  (Favourite_rows db = rows0
   ∨ (Favourite_rows db = gone
      ∧ (st1 = Gone (Resolved (deleted req))
         ∨ st2 = Gone (Resolved (deleted req)))))
  ∧ delete_stage_ok req st1 ∧ delete_stage_ok req st2
  ∧ (delete_awaits_left st1 = 0 → favourite_of req ∉ Favourite_rows db)
  ∧ (delete_awaits_left st2 = 0 → favourite_of req ∉ Favourite_rows db)
  ∧ (favourite_of req ∈ rows0 →
     (st1 = AtFind ∧ st2 = AtFind)
     ∨ delete_wins req st1 ∨ delete_wins req st2)
  ∧ (favourite_of req ∉ rows0 →
     ¬ delete_wins req st1 ∧ ¬ delete_wins req st2).

Definition delete_flight_inv (req : Request) (rows0 : list Favourite)
    (s : Flight) (n1 n2 : nat) : Prop :=
  ∃ st1 st2,
    first s = delete_prog_of req st1
    ∧ second s = delete_prog_of req st2
    ∧ delete_race_inv req rows0 (store s) st1 st2
    ∧ delete_awaits_left st1 ≤ n1
    ∧ delete_awaits_left st2 ≤ n2.

(** ** The authentication bloc of the client

    [AuthBloc] of the Flutter client: the handlers [_login] and
    [_register] that the constructor registers for the two events.  The
    state class, its [copyWith], the status enumeration and the
    repository are declared in files that are missing, so they are
    parameters. *)

(** What a handler does to the outside: it emits a state, or it calls the
    repository and waits for the answer. *)
Inductive RepositoryCall :=
  | RepositoryLogin (email password : string)
  | RepositoryRegister (email password : string).

Inductive BlocEffect (AuthState : Type) :=
  | Emitted (state : AuthState)
  | Called (call : RepositoryCall).
Arguments Emitted {AuthState} state.
Arguments Called {AuthState} call.

(** A handler, cut at its effects: [emit(f(state))] reads the state of the
    bloc at that moment; the awaited repository call returns a user or
    throws. *)
Inductive BlocHandler (AuthState User Exception : Type) :=
  | Finished
  | Emit (f : AuthState → AuthState)
         (k : BlocHandler AuthState User Exception)
  | AwaitRepository (call : RepositoryCall)
         (k : User + Exception → BlocHandler AuthState User Exception).
Arguments Finished {AuthState User Exception}.
Arguments Emit {AuthState User Exception} f k.
Arguments AwaitRepository {AuthState User Exception} call k.

(** One handler run on its own against a repository: the state of the bloc
    at the end and the effects in order. *)
Fixpoint run_handler {AuthState User Exception : Type}
    (repository : RepositoryCall → User + Exception)
    (h : BlocHandler AuthState User Exception) (state : AuthState)
    : AuthState * list (BlocEffect AuthState) :=
  match h with
  | Finished => (state, [])
  | Emit f k =>
      let state' := f state in
      let '(final, effects) := run_handler repository k state' in
      (final, Emitted state' :: effects)
  | AwaitRepository call k =>
      let '(final, effects) :=
        run_handler repository (k (repository call)) state in
      (final, Called call :: effects)
  end.

(** [String.isEmpty]. *)
Definition isEmpty (s : string) : bool :=
  match s with
  | EmptyString => true
  | String _ _ => false
  end.

Record LoginEvent := { login_email : string; login_password : string }.
Record RegisterEvent := {
  register_email : string;
  register_password : string;
}.

Inductive AuthEvent :=
  | OnLogin (event : LoginEvent)
  | OnRegister (event : RegisterEvent).

Section AuthBloc.

Context {AuthStatus User Exception AuthState : Type}.

(** [AuthStatus.loading], [AuthStatus.success], [AuthStatus.failure]. *)
Variables loading success failure : AuthStatus.

(** [e.toString()]. *)
Variable toString : Exception → string.

(** [state.copyWith(status: .., user: .., error: ..)]; a named argument
    that is not passed is [None]. *)
Variable copyWith :
  AuthState → option AuthStatus → option User → option string → AuthState.

Definition _login (event : LoginEvent)
    : BlocHandler AuthState User Exception :=
  if isEmpty (login_email event) || isEmpty (login_password event)
  then Finished
  else
    Emit (λ state, copyWith state (Some loading) None None)
      (AwaitRepository
         (RepositoryLogin (login_email event) (login_password event))
         (λ answer,
            match answer with
            | inl user =>
                Emit (λ state,
                        copyWith state (Some success) (Some user) None)
                     Finished
            | inr e =>
                Emit (λ state,
                        copyWith state (Some failure) None
                                 (Some (toString e)))
                     Finished
            end)).

Definition _register (event : RegisterEvent)
    : BlocHandler AuthState User Exception :=
  if isEmpty (register_email event) || isEmpty (register_password event)
  then Finished
  else
    Emit (λ state, copyWith state (Some loading) None None)
      (AwaitRepository
         (RepositoryRegister (register_email event)
                             (register_password event))
         (λ answer,
            match answer with
            | inl user =>
                Emit (λ state,
                        copyWith state (Some success) (Some user) None)
                     Finished
            | inr e =>
                Emit (λ state,
                        copyWith state (Some failure) None
                                 (Some (toString e)))
                     Finished
            end)).

(** [on<LoginEvent>(_login); on<RegisterEvent>(_register);] *)
Definition on_event (event : AuthEvent)
    : BlocHandler AuthState User Exception :=
  match event with
  | OnLogin e => _login e
  | OnRegister e => _register e
  end.

(** Events handled one after the other, each handler to its end. *)
Fixpoint handle_all (repository : RepositoryCall → User + Exception)
    (events : list AuthEvent) (state : AuthState)
    : AuthState * list (BlocEffect AuthState) :=
  match events with
  | [] => (state, [])
  | event :: events =>
      let '(state', effects) :=
        run_handler repository (on_event event) state in
      let '(final, effects') := handle_all repository events state' in
      (final, effects ++ effects')
  end.

End AuthBloc.

(** The repository call an event leads to, if any. *)
Definition call_of (event : AuthEvent) : option RepositoryCall :=
  match event with
  | OnLogin e =>
      if isEmpty (login_email e) || isEmpty (login_password e) then None
      else Some (RepositoryLogin (login_email e) (login_password e))
  | OnRegister e =>
      if isEmpty (register_email e) || isEmpty (register_password e)
      then None
      else Some (RepositoryRegister (register_email e)
                                    (register_password e))
  end.

Definition calls_of {AuthState : Type}
    (effects : list (BlocEffect AuthState)) : list RepositoryCall :=
  omap (λ effect, match effect with
                  | Called call => Some call
                  | Emitted _ => None
                  end) effects.

(** An instance of the missing declarations for the examples: a status
    enumeration with one more value, and a state of a status, a user and
    an error whose [copyWith] replaces what it is given. *)
Inductive ExampleStatus :=
  | example_initial
  | example_loading
  | example_success
  | example_failure.

Record ExampleState := {
  example_status : ExampleStatus;
  example_user : option string;
  example_error : option string;
}.

Definition example_copyWith (state : ExampleState)
    (status : option ExampleStatus) (user error : option string)
    : ExampleState :=
  {| example_status := default (example_status state) status;
     example_user := match user with
                     | Some u => Some u
                     | None => example_user state
                     end;
     example_error := match error with
                      | Some e => Some e
                      | None => example_error state
                      end |}.

Definition example_repository (call : RepositoryCall) : string + string :=
  match call with
  | RepositoryLogin email _ => inl email
  | RepositoryRegister _ _ => inr "Exception: email already in use"
  end.

Definition example_state : ExampleState :=
  {| example_status := example_initial;
     example_user := None;
     example_error := None |}.

Definition example_login : LoginEvent :=
  {| login_email := "ash@pallet.town"; login_password := "pikachu" |}.

Definition example_register : RegisterEvent :=
  {| register_email := "ash@pallet.town"; register_password := "pikachu" |}.

(** A larger example: two users, two catalog entries. *)
Definition kanto_db (rows : list Favourite) : Db :=
  {| User_rows := {[ 7%Z; 8%Z ]};
     Pokemon_rows := {[ 4%Z := "Charmander"; 25%Z := "Pikachu" ]};
     Favourite_rows := rows |}.

Definition likes (uid pid : Z) : Favourite :=
  {| user_id := uid; pokemon_id := pid |}.

Definition misty_likes (pid : Z) : Request :=
  {| params_pokemon_id := pid; user_id_of := 8 |}.

(** ** What each handler computes *)

Lemma createFavourite_unfold uq req db :
  createFavourite uq req db =
    match Pokemon_rows db !! params_pokemon_id req with
    | None => (db, Next (err_pokemon_not_found (params_pokemon_id req)))
    | Some _ =>
        match rows_for (user_id_of req) (params_pokemon_id req)
                       (Favourite_rows db) with
        | _ :: _ =>
            (db, Next (err_already_liked (user_id_of req)
                                         (params_pokemon_id req)))
        | [] =>
            (set_Favourite_rows (Favourite_rows db ++ [favourite_of req]) db,
             created req)
        end
    end.
Proof.
  unfold createFavourite, catchAsync, createFavourite_body. simpl.
  destruct (Pokemon_rows db !! params_pokemon_id req) as [n|]; simpl; [|done].
  unfold Favourite_create.
  destruct (rows_for _ _ _) as [|f fs] eqn:E; simpl.
  - rewrite E, andb_false_r. done.
  - done.
Qed.

Lemma readFavourite_unfold req db :
  readFavourite req db =
    if decide (user_id_of req ∈ User_rows db) then
      match joined_pokemons (user_id_of req) db with
      | [] => (db, Next (err_no_favourites (user_id_of req)))
      | l => (db, listed l)
      end
    else (db, Next TypeError).
Proof.
  unfold readFavourite, catchAsync, readFavourite_body. simpl.
  destruct (decide _); simpl; [|done].
  by destruct (joined_pokemons _ _).
Qed.

Lemma deleteFavourite_unfold req db :
  deleteFavourite req db =
    match rows_for (user_id_of req) (params_pokemon_id req)
                   (Favourite_rows db) with
    | [] => (db, Next (err_not_liked (user_id_of req) (params_pokemon_id req)))
    | f :: _ =>
        (set_Favourite_rows
           (filter (λ g, ¬ same_pair (user_id f) (pokemon_id f) g)
                   (Favourite_rows db)) db,
         deleted req)
    end.
Proof.
  unfold deleteFavourite, catchAsync, deleteFavourite_body. simpl.
  by destruct (rows_for _ _ _).
Qed.

(** ** Rows of one pair *)

Section Rows.

Implicit Types (rows : list Favourite) (f g : Favourite) (uid pid : Z).

Lemma same_pair_eq uid pid f :
  same_pair uid pid f ↔ f = {| user_id := uid; pokemon_id := pid |}.
Proof.
  destruct f as [u p]. unfold same_pair. simpl. split.
  - by intros [-> ->].
  - by intros [= -> ->].
Qed.

Lemma rows_for_app uid pid rows rows' :
  rows_for uid pid (rows ++ rows') =
  rows_for uid pid rows ++ rows_for uid pid rows'.
Proof. apply filter_app. Qed.

Lemma rows_for_nil_iff uid pid rows :
  rows_for uid pid rows = [] ↔
  {| user_id := uid; pokemon_id := pid |} ∉ rows.
Proof.
  unfold rows_for. induction rows as [|g rows IH]; simpl.
  - split; [intros _; apply not_elem_of_nil | done].
  - rewrite filter_cons, not_elem_of_cons. destruct (decide _) as [Hs|Hs].
    + apply same_pair_eq in Hs. split; [done | intros [Hne _]; by subst].
    + rewrite IH. rewrite same_pair_eq in Hs. split; [by split | tauto].
Qed.

Lemma rows_for_elem uid pid rows f :
  f ∈ rows_for uid pid rows →
  f = {| user_id := uid; pokemon_id := pid |} ∧ f ∈ rows.
Proof.
  unfold rows_for. rewrite list_elem_of_filter, same_pair_eq. tauto.
Qed.

Lemma rows_for_other uid pid uid' pid' :
  (uid', pid') ≠ (uid, pid) →
  rows_for uid pid [{| user_id := uid'; pokemon_id := pid' |}] = [].
Proof.
  intros Hne. apply rows_for_nil_iff. rewrite list_elem_of_singleton.
  intros [= -> ->]. done.
Qed.

Lemma rows_for_self uid pid :
  rows_for uid pid [{| user_id := uid; pokemon_id := pid |}] =
  [{| user_id := uid; pokemon_id := pid |}].
Proof.
  unfold rows_for. rewrite filter_cons, filter_nil.
  destruct (decide _) as [|Hn]; [done|]. exfalso. apply Hn. by split.
Qed.

(** What [destroy] leaves of the rows of a pair. *)
Lemma rows_for_destroy uid pid uid' pid' rows :
  rows_for uid pid (filter (λ g, ¬ same_pair uid' pid' g) rows) =
  if decide ((uid, pid) = (uid', pid')) then [] else rows_for uid pid rows.
Proof.
  unfold rows_for. induction rows as [|g rows IH]; simpl.
  - by destruct (decide _).
  - rewrite !filter_cons.
    destruct (decide (¬ same_pair uid' pid' g)) as [Hk|Hk].
    + rewrite filter_cons, IH.
      destruct (decide (same_pair uid pid g)) as [Hs|Hs];
        destruct (decide ((uid, pid) = (uid', pid'))) as [[= -> ->]|]; done.
    + rewrite IH. apply dec_stable in Hk.
      destruct (decide ((uid, pid) = (uid', pid'))) as [|Hne]; [done|].
      destruct (decide (same_pair uid pid g)) as [Hs|Hs]; [|done].
      destruct Hk as [<- <-], Hs as [<- <-]. done.
Qed.

Lemma destroy_absent uid pid rows :
  rows_for uid pid rows = [] →
  filter (λ g, ¬ same_pair uid pid g) rows = rows.
Proof.
  unfold rows_for. induction rows as [|g rows IH]; [done|].
  rewrite !filter_cons. destruct (decide (same_pair uid pid g)); [done|].
  intros H. destruct (decide (¬ same_pair uid pid g)); [|done].
  by rewrite IH.
Qed.

Lemma unique_pairs_nil : unique_pairs [].
Proof. intros uid pid. simpl. lia. Qed.

Lemma unique_pairs_create uid pid rows :
  unique_pairs rows →
  rows_for uid pid rows = [] →
  unique_pairs (rows ++ [{| user_id := uid; pokemon_id := pid |}]).
Proof.
  intros Hu Hnone uid' pid'. rewrite rows_for_app, length_app.
  destruct (decide ((uid, pid) = (uid', pid'))) as [[= <- <-]|Hne].
  - rewrite Hnone, rows_for_self. simpl. lia.
  - rewrite rows_for_other by done. specialize (Hu uid' pid'). simpl. lia.
Qed.

Lemma unique_pairs_destroy uid pid rows :
  unique_pairs rows →
  unique_pairs (filter (λ g, ¬ same_pair uid pid g) rows).
Proof.
  intros Hu uid' pid'. rewrite rows_for_destroy.
  destruct (decide _); [simpl; lia | apply Hu].
Qed.

(** Under the invariant a pair's row sits at one place of the table, and
    [destroy] takes out just that place. *)
Lemma unique_pairs_destroy_split uid pid rows :
  unique_pairs rows →
  {| user_id := uid; pokemon_id := pid |} ∈ rows →
  ∃ before after,
    rows = before ++ {| user_id := uid; pokemon_id := pid |} :: after
    ∧ filter (λ g, ¬ same_pair uid pid g) rows = before ++ after.
Proof.
  intros Hu Hin. apply list_elem_of_split in Hin as (before & after & ->).
  exists before, after. split; [done|].
  specialize (Hu uid pid). revert Hu.
  rewrite rows_for_app, length_app.
  change (rows_for uid pid (?x :: after))
    with (rows_for uid pid ([x] ++ after)).
  rewrite (rows_for_app uid pid [_] after), length_app, rows_for_self.
  simpl. intros Hu.
  assert (rows_for uid pid before = []) as Hb
    by (apply length_zero_iff_nil; lia).
  assert (rows_for uid pid after = []) as Ha
    by (apply length_zero_iff_nil; lia).
  rewrite filter_app, filter_cons.
  rewrite (destroy_absent _ _ _ Hb), (destroy_absent _ _ _ Ha).
  destruct (decide _) as [Hn|]; [|done]. exfalso. apply Hn. by split.
Qed.

Lemma NoDup_unique_pairs rows : NoDup rows → unique_pairs rows.
Proof.
  induction 1 as [|g rows Hg _ IH]; [apply unique_pairs_nil|].
  intros uid pid. unfold rows_for. rewrite filter_cons.
  destruct (decide (same_pair uid pid g)) as [Hs|_]; [|apply IH].
  apply same_pair_eq in Hs. subst g. apply rows_for_nil_iff in Hg.
  unfold rows_for in Hg. rewrite Hg. simpl. lia.
Qed.

End Rows.

(** ** The handlers, case by case *)

Section Cases.

Variable uq : bool.
Implicit Types (req : Request) (db : Db).

Lemma rows_for_request req db :
  rows_for (user_id_of req) (params_pokemon_id req) (Favourite_rows db) = []
  ↔ favourite_of req ∉ Favourite_rows db.
Proof. apply rows_for_nil_iff. Qed.

Lemma createFavourite_missing req db :
  Pokemon_rows db !! params_pokemon_id req = None →
  createFavourite uq req db =
    (db, Next (err_pokemon_not_found (params_pokemon_id req))).
Proof. intros H. by rewrite createFavourite_unfold, H. Qed.

Lemma createFavourite_duplicate req db :
  is_Some (Pokemon_rows db !! params_pokemon_id req) →
  favourite_of req ∈ Favourite_rows db →
  createFavourite uq req db =
    (db, Next (err_already_liked (user_id_of req) (params_pokemon_id req))).
Proof.
  intros [n Hn] Hin. rewrite createFavourite_unfold, Hn.
  destruct (rows_for _ _ _) eqn:E; [|done].
  by apply rows_for_request in E.
Qed.

Lemma createFavourite_fresh req db :
  is_Some (Pokemon_rows db !! params_pokemon_id req) →
  favourite_of req ∉ Favourite_rows db →
  createFavourite uq req db =
    (set_Favourite_rows (Favourite_rows db ++ [favourite_of req]) db,
     created req).
Proof.
  intros [n Hn] Hin. apply rows_for_request in Hin.
  by rewrite createFavourite_unfold, Hn, Hin.
Qed.

Lemma deleteFavourite_absent req db :
  favourite_of req ∉ Favourite_rows db →
  deleteFavourite req db =
    (db, Next (err_not_liked (user_id_of req) (params_pokemon_id req))).
Proof.
  intros Hin. apply rows_for_request in Hin.
  by rewrite deleteFavourite_unfold, Hin.
Qed.

Lemma deleteFavourite_present req db :
  favourite_of req ∈ Favourite_rows db →
  deleteFavourite req db =
    (set_Favourite_rows
       (filter (λ g, ¬ same_pair (user_id_of req) (params_pokemon_id req) g)
               (Favourite_rows db)) db,
     deleted req).
Proof.
  intros Hin. rewrite deleteFavourite_unfold.
  destruct (rows_for _ _ _) as [|f fs] eqn:E.
  - by apply rows_for_request in E.
  - assert (f ∈ rows_for (user_id_of req) (params_pokemon_id req)
                        (Favourite_rows db)) as Hf
      by (rewrite E; apply list_elem_of_here).
    apply rows_for_elem in Hf as [-> _]. done.
Qed.

(** The catalog and the users are never written. *)
Lemma createFavourite_reads_only req db :
  Pokemon_rows (createFavourite uq req db).1 = Pokemon_rows db
  ∧ User_rows (createFavourite uq req db).1 = User_rows db.
Proof.
  rewrite createFavourite_unfold.
  destruct (Pokemon_rows db !! _); [|done]. by destruct (rows_for _ _ _).
Qed.

Lemma deleteFavourite_reads_only req db :
  Pokemon_rows (deleteFavourite req db).1 = Pokemon_rows db
  ∧ User_rows (deleteFavourite req db).1 = User_rows db.
Proof. rewrite deleteFavourite_unfold. by destruct (rows_for _ _ _). Qed.

Lemma createFavourite_keeps_unique req db :
  unique_pairs (Favourite_rows db) →
  unique_pairs (Favourite_rows (createFavourite uq req db).1).
Proof.
  intros Hu. rewrite createFavourite_unfold.
  destruct (Pokemon_rows db !! _); [|done].
  destruct (rows_for _ _ _) eqn:E; [|done].
  simpl. by apply unique_pairs_create.
Qed.

Lemma deleteFavourite_keeps_unique req db :
  unique_pairs (Favourite_rows db) →
  unique_pairs (Favourite_rows (deleteFavourite req db).1).
Proof.
  intros Hu. rewrite deleteFavourite_unfold.
  destruct (rows_for _ _ _); [done|]. simpl. by apply unique_pairs_destroy.
Qed.

Lemma createFavourite_keeps_references req db :
  references_pokemon db →
  references_pokemon (createFavourite uq req db).1.
Proof.
  intros Href. rewrite createFavourite_unfold.
  destruct (Pokemon_rows db !! params_pokemon_id req) as [n|] eqn:Hn;
    [|done].
  destruct (rows_for _ _ _); [|done].
  intros f. cbn [fst Favourite_rows Pokemon_rows set_Favourite_rows].
  intros [Hf| ->%list_elem_of_singleton]%elem_of_app.
  - by apply Href.
  - simpl. by rewrite Hn.
Qed.

Lemma deleteFavourite_keeps_references req db :
  references_pokemon db →
  references_pokemon (deleteFavourite req db).1.
Proof.
  intros Href. rewrite deleteFavourite_unfold.
  destruct (rows_for _ _ _) as [|f0 fs]; [done|].
  intros f. cbn [fst Favourite_rows Pokemon_rows set_Favourite_rows].
  intros [_ Hf]%list_elem_of_filter. by apply Href.
Qed.

End Cases.

(** C1: whatever sequence of add and remove operations is run on a table
    with at most one row per (user_id, pokemon_id) pair, the table after
    each operation again has at most one row per pair; an add that changes
    the table found no row for its pair and appended exactly that row; a
    remove that changes the table found a row of its pair and took the
    pair's rows out. *)
Theorem favourite_rows_stay_unique (uq : bool) (db : Db) (ops : list Op) :
  unique_pairs (Favourite_rows db) →
  Forall (λ d, unique_pairs (Favourite_rows d)) (history uq ops db)
  ∧ (∀ req d,
       Favourite_rows (createFavourite uq req d).1 ≠ Favourite_rows d →
       (favourite_of req ∉ Favourite_rows d)
       ∧ Favourite_rows (createFavourite uq req d).1 =
           Favourite_rows d ++ [favourite_of req])
  ∧ (∀ req d,
       Favourite_rows (deleteFavourite req d).1 ≠ Favourite_rows d →
       favourite_of req ∈ Favourite_rows d
       ∧ Favourite_rows (deleteFavourite req d).1 =
           filter (λ g, g ≠ favourite_of req) (Favourite_rows d)).
Proof.
  intros Hu. split; [|split].
  - revert db Hu. induction ops as [|o ops IH]; intros db Hu; simpl.
    + constructor.
    + assert (unique_pairs (Favourite_rows (perform uq o db))) as Hu'.
      { destruct o; simpl.
        - by apply createFavourite_keeps_unique.
        - by apply deleteFavourite_keeps_unique. }
      constructor; [done | by apply IH].
  - intros req d. rewrite createFavourite_unfold.
    destruct (Pokemon_rows d !! _); [|done].
    destruct (rows_for _ _ _) eqn:E; [|done].
    intros _. split; [by apply rows_for_request | done].
  - intros req d.
    destruct (decide (favourite_of req ∈ Favourite_rows d)) as [Hin|Hin].
    + rewrite (deleteFavourite_present _ _ Hin). simpl. intros _.
      split; [done|]. apply list_filter_iff. intros g.
      rewrite same_pair_eq. done.
    + rewrite (deleteFavourite_absent _ _ Hin). done.
Qed.

Lemma favourite_rows_stay_unique_witness :
  unique_pairs (Favourite_rows (pikachu_db []))
  ∧ Forall (λ d, unique_pairs (Favourite_rows d))
      (history true
         [AddFavourite (ash_likes 25); AddFavourite (ash_likes 25);
          RemoveFavourite (ash_likes 25); RemoveFavourite (ash_likes 25)]
         (pikachu_db [])).
Proof.
  split; [apply unique_pairs_nil|].
  apply (favourite_rows_stay_unique true (pikachu_db [])).
  apply unique_pairs_nil.
Defined.

(** C2: for an existing pokemon, on a table with at most one row per pair,
    a second add of the same favourite is answered with the 400 "already
    liked" error through [next], changes nothing, and the table holds
    exactly one row of the pair. *)
Theorem createFavourite_twice (uq : bool) (req : Request) (db : Db) :
  is_Some (Pokemon_rows db !! params_pokemon_id req) →
  unique_pairs (Favourite_rows db) →
  let db1 := (createFavourite uq req db).1 in
  createFavourite uq req db1 =
    (db1, Next (err_already_liked (user_id_of req) (params_pokemon_id req)))
  ∧ length (rows_for (user_id_of req) (params_pokemon_id req)
                     (Favourite_rows db1)) = 1.
Proof.
  intros Hp Hu db1.
  assert (favourite_of req ∈ Favourite_rows db1) as Hin.
  { subst db1.
    destruct (decide (favourite_of req ∈ Favourite_rows db)) as [Hin|Hin].
    - by rewrite (createFavourite_duplicate _ _ _ Hp Hin).
    - rewrite (createFavourite_fresh _ _ _ Hp Hin). simpl.
      apply elem_of_app. right. apply list_elem_of_here. }
  assert (is_Some (Pokemon_rows db1 !! params_pokemon_id req)) as Hp1.
  { subst db1. by rewrite (proj1 (createFavourite_reads_only uq req db)). }
  split.
  - by apply createFavourite_duplicate.
  - pose proof (createFavourite_keeps_unique uq req db Hu
                  (user_id_of req) (params_pokemon_id req)) as Hle.
    fold db1 in Hle.
    destruct (rows_for _ _ (Favourite_rows db1)) eqn:E; [|simpl in *; lia].
    by apply rows_for_request in E.
Qed.

Lemma createFavourite_twice_witness :
  let db1 := (createFavourite true (ash_likes 25) (pikachu_db [])).1 in
  createFavourite true (ash_likes 25) db1 =
    (db1, Next (err_already_liked 7 25))
  ∧ length (rows_for 7 25 (Favourite_rows db1)) = 1.
Proof.
  apply (createFavourite_twice true (ash_likes 25) (pikachu_db [])).
  - vm_compute. eauto.
  - apply unique_pairs_nil.
Defined.

(** C3: an add for a pokemon id with no catalog row is answered with the
    404 "not found" error through [next] and leaves every table as it
    was. *)
Theorem createFavourite_unknown_pokemon (uq : bool) (req : Request) (db : Db) :
  Pokemon_rows db !! params_pokemon_id req = None →
  createFavourite uq req db =
    (db, Next (AppError
      ("Pokémon with id " +:+ pretty (params_pokemon_id req) +:+ " not found")
      404))
  ∧ Favourite_rows (createFavourite uq req db).1 = Favourite_rows db.
Proof.
  intros H. rewrite (createFavourite_missing _ _ _ H). done.
Qed.

Lemma createFavourite_unknown_pokemon_witness :
  createFavourite true (ash_likes 151) (pikachu_db []) =
    (pikachu_db [], Next (AppError "Pokémon with id 151 not found" 404))
  ∧ Favourite_rows (createFavourite true (ash_likes 151) (pikachu_db [])).1
    = [].
Proof.
  apply (createFavourite_unknown_pokemon true (ash_likes 151) (pikachu_db [])).
  vm_compute. reflexivity.
Defined.

(** C5: a remove for a pair with no favourite row is answered with the 404
    "doesn't like" error through [next] and leaves every table as it was. *)
Theorem deleteFavourite_never_added (req : Request) (db : Db) :
  favourite_of req ∉ Favourite_rows db →
  deleteFavourite req db =
    (db, Next (AppError
      ("User " +:+ pretty (user_id_of req)
         +:+ " doesn't like pokemon with id "
         +:+ pretty (params_pokemon_id req)) 404))
  ∧ Favourite_rows (deleteFavourite req db).1 = Favourite_rows db.
Proof.
  intros H. rewrite (deleteFavourite_absent _ _ H). done.
Qed.

Lemma deleteFavourite_never_added_witness :
  deleteFavourite (ash_likes 25) (pikachu_db []) =
    (pikachu_db [],
     Next (AppError "User 7 doesn't like pokemon with id 25" 404))
  ∧ Favourite_rows (deleteFavourite (ash_likes 25) (pikachu_db [])).1 = [].
Proof.
  apply (deleteFavourite_never_added (ash_likes 25) (pikachu_db [])).
  apply not_elem_of_nil.
Defined.

(** C6: a remove for a pair that has a favourite row, on a table with at
    most one row per pair, takes exactly that row out of the table and
    answers with status 204 and no body content: the JSON object the
    handler hands to [json] is not sent at status 204. *)
Theorem deleteFavourite_deletes_row_204 (req : Request) (db : Db) :
  unique_pairs (Favourite_rows db) →
  favourite_of req ∈ Favourite_rows db →
  ∃ before after,
    Favourite_rows db = before ++ favourite_of req :: after
    ∧ deleteFavourite req db =
        (set_Favourite_rows (before ++ after) db,
         Sent {| statusCode := 204; body := None |}).
Proof.
  intros Hu Hin.
  destruct (unique_pairs_destroy_split _ _ _ Hu Hin)
    as (before & after & Hrows & Hdel).
  exists before, after. split; [done|].
  rewrite (deleteFavourite_present _ _ Hin), Hdel. done.
Qed.

Lemma deleteFavourite_deletes_row_204_witness :
  ∃ before after,
    [likes 7 4; likes 7 25; likes 8 25]
      = before ++ favourite_of (ash_likes 25) :: after
    ∧ deleteFavourite (ash_likes 25)
        (kanto_db [likes 7 4; likes 7 25; likes 8 25]) =
        (set_Favourite_rows (before ++ after)
           (kanto_db [likes 7 4; likes 7 25; likes 8 25]),
         Sent {| statusCode := 204; body := None |}).
Proof.
  apply (deleteFavourite_deletes_row_204 (ash_likes 25)
           (kanto_db [likes 7 4; likes 7 25; likes 8 25])).
  - apply NoDup_unique_pairs. apply (bool_decide_unpack _). vm_compute.
    reflexivity.
  - apply (bool_decide_unpack _). vm_compute. reflexivity.
Defined.

(** The rows that example leaves. *)
Example deleteFavourite_deletes_row_204_example :
  deleteFavourite (ash_likes 25)
    (kanto_db [likes 7 4; likes 7 25; likes 8 25])
  = (kanto_db [likes 7 4; likes 8 25],
     Sent {| statusCode := 204; body := None |}).
Proof. vm_compute. reflexivity. Qed.

(** ** The list of a user's favourites *)

Section Listing.

Implicit Types (req : Request) (db : Db) (rows : list Favourite).

Lemma rows_of_user_app uid rows rows' :
  rows_of_user uid (rows ++ rows') =
  rows_of_user uid rows ++ rows_of_user uid rows'.
Proof. apply filter_app. Qed.

Lemma rows_of_user_nil_iff uid rows :
  rows_of_user uid rows = [] ↔ ∀ f, f ∈ rows → user_id f ≠ uid.
Proof.
  unfold rows_of_user. induction rows as [|g rows IH].
  - split; [intros _ f Hf; by apply not_elem_of_nil in Hf | done].
  - rewrite filter_cons. destruct (decide (user_id g = uid)) as [Hg|Hg].
    + split; [done|]. intros H. destruct (H g); [apply list_elem_of_here|done].
    + rewrite IH. split.
      * intros H f [->|Hf]%elem_of_cons; [done | by apply H].
      * intros H f Hf. apply H. by apply list_elem_of_further.
Qed.

Lemma join_catalog_cons catalog g rows :
  join_catalog catalog (g :: rows) =
    match catalog !! pokemon_id g with
    | Some n => (pokemon_id g, n) :: join_catalog catalog rows
    | None => join_catalog catalog rows
    end.
Proof.
  unfold join_catalog. simpl. by destruct (catalog !! pokemon_id g).
Qed.

(** The entries of the list with a given id come from the rows of that
    pair. *)
Lemma join_catalog_filter_id catalog uid pid rows :
  filter (λ e, e.1 = pid) (join_catalog catalog (rows_of_user uid rows)) =
  join_catalog catalog (rows_for uid pid rows).
Proof.
  unfold rows_of_user, rows_for.
  induction rows as [|g rows IH]; [done|].
  rewrite !filter_cons.
  destruct (decide (user_id g = uid)) as [Hu|Hu];
    destruct (decide (same_pair uid pid g)) as [[Hs1 Hs2]|Hs];
    rewrite ?join_catalog_cons; try done.
  - destruct (catalog !! pokemon_id g) as [n|]; [|done].
    rewrite filter_cons. simpl.
    destruct (decide (pokemon_id g = pid)); [|done]. by rewrite IH.
  - destruct (catalog !! pokemon_id g) as [n|]; [|done].
    rewrite filter_cons. simpl.
    destruct (decide (pokemon_id g = pid)) as [Hp|]; [|done].
    destruct Hs. by split.
Qed.

(** With every row pointing at a catalog entry, the list is as long as
    the user's rows. *)
Lemma join_catalog_length catalog rows :
  (∀ f, f ∈ rows → is_Some (catalog !! pokemon_id f)) →
  length (join_catalog catalog rows) = length rows.
Proof.
  induction rows as [|g rows IH]; intros H; [done|].
  destruct (H g (list_elem_of_here _ _)) as [n Hn].
  rewrite join_catalog_cons, Hn. simpl.
  f_equal. apply IH. intros f Hf. apply H. by apply list_elem_of_further.
Qed.

Lemma joined_pokemons_length uid db :
  references_pokemon db →
  length (joined_pokemons uid db) =
  length (rows_of_user uid (Favourite_rows db)).
Proof.
  intros Href. apply join_catalog_length. intros f Hf. apply Href.
  unfold rows_of_user in Hf. by apply list_elem_of_filter in Hf as [_ Hf].
Qed.

Lemma readFavourite_empty req db :
  user_id_of req ∈ User_rows db →
  joined_pokemons (user_id_of req) db = [] →
  readFavourite req db = (db, Next (err_no_favourites (user_id_of req))).
Proof.
  intros Hu Hj. rewrite readFavourite_unfold, Hj.
  by destruct (decide _).
Qed.

Lemma readFavourite_some req db :
  user_id_of req ∈ User_rows db →
  joined_pokemons (user_id_of req) db ≠ [] →
  readFavourite req db = (db, listed (joined_pokemons (user_id_of req) db)).
Proof.
  intros Hu Hj. rewrite readFavourite_unfold.
  destruct (decide _); [|done]. by destruct (joined_pokemons _ _).
Qed.

End Listing.

(** C4: for a user with a User row, on tables where every favourite row
    points at a catalog entry, listing the favourites of a user with no
    favourite row is answered with the 404 "no favourite" error through
    [next], not with an empty list, and the handler sends status 200
    exactly when the user has at least one favourite row. *)
Theorem readFavourite_empty_is_not_found (req : Request) (db : Db) :
  user_id_of req ∈ User_rows db →
  references_pokemon db →
  (rows_of_user (user_id_of req) (Favourite_rows db) = [] →
   readFavourite req db =
     (db, Next (AppError
       ("No favourite Pokémon found for user with id "
          +:+ pretty (user_id_of req)) 404)))
  ∧ (sent_with_status 200 (readFavourite req db).2 ↔
     rows_of_user (user_id_of req) (Favourite_rows db) ≠ []).
Proof.
  intros Hu Href.
  pose proof (joined_pokemons_length (user_id_of req) db Href) as Hlen.
  split.
  - intros Hnone. apply readFavourite_empty; [done|].
    apply length_zero_iff_nil. by rewrite Hlen, Hnone.
  - destruct (rows_of_user _ _) as [|f fs] eqn:E.
    + rewrite readFavourite_empty; [simpl; tauto | done |].
      by apply length_zero_iff_nil.
    + rewrite readFavourite_some; [simpl; split; done | done |].
      intros Hj. by rewrite Hj in Hlen.
Qed.

Lemma readFavourite_empty_is_not_found_witness :
  (rows_of_user 7 [] = [] →
   readFavourite (ash_likes 25) (pikachu_db []) =
     (pikachu_db [],
      Next (AppError "No favourite Pokémon found for user with id 7" 404)))
  ∧ (sent_with_status 200 (readFavourite (ash_likes 25) (pikachu_db [])).2 ↔
     rows_of_user 7 [] ≠ []).
Proof.
  apply (readFavourite_empty_is_not_found (ash_likes 25) (pikachu_db [])).
  - simpl. apply elem_of_singleton. reflexivity.
  - intros f Hf. by apply not_elem_of_nil in Hf.
Defined.

(** C7: for a user with a User row and a catalog entry the user has not
    favourited yet, add followed by list sends the 200 list, and the
    entry, as its id and name, is in that list exactly once: it is the
    only entry of the list with that id. *)
Theorem add_then_list (uq : bool) (req : Request) (db : Db) (n : string) :
  user_id_of req ∈ User_rows db →
  Pokemon_rows db !! params_pokemon_id req = Some n →
  favourite_of req ∉ Favourite_rows db →
  let db1 := (createFavourite uq req db).1 in
  ∃ l,
    readFavourite req db1 = (db1, listed l)
    ∧ filter (λ e, e = (params_pokemon_id req, n)) l
        = [(params_pokemon_id req, n)]
    ∧ filter (λ e, e.1 = params_pokemon_id req) l
        = [(params_pokemon_id req, n)].
Proof.
  intros Hu Hn Hfresh db1.
  assert (db1 = set_Favourite_rows
                  (Favourite_rows db ++ [favourite_of req]) db) as Hdb1.
  { subst db1. by rewrite createFavourite_fresh. }
  assert (filter (λ e, e.1 = params_pokemon_id req)
            (joined_pokemons (user_id_of req) db1)
          = [(params_pokemon_id req, n)]) as Hid.
  { unfold joined_pokemons. rewrite join_catalog_filter_id, Hdb1.
    cbn [Pokemon_rows Favourite_rows set_Favourite_rows].
    rewrite rows_for_app. apply rows_for_request in Hfresh.
    rewrite Hfresh. unfold favourite_of. rewrite rows_for_self, app_nil_l.
    rewrite join_catalog_cons. cbn [pokemon_id]. by rewrite Hn. }
  exists (joined_pokemons (user_id_of req) db1). split; [|split].
  - apply readFavourite_some.
    + by rewrite Hdb1.
    + intros Hnil. by rewrite Hnil in Hid.
  - rewrite <- (list_filter_filter_l (λ e, e = (params_pokemon_id req, n))
                  (λ e : Z * string, e.1 = params_pokemon_id req))
      by (by intros e ->).
    by rewrite Hid, filter_cons, decide_True.
  - done.
Qed.

Lemma add_then_list_witness :
  let db1 := (createFavourite true (ash_likes 25) (pikachu_db [])).1 in
  ∃ l,
    readFavourite (ash_likes 25) db1 = (db1, listed l)
    ∧ filter (λ e, e = (25%Z, "Pikachu")) l = [(25%Z, "Pikachu")]
    ∧ filter (λ e, e.1 = 25%Z) l = [(25%Z, "Pikachu")].
Proof.
  apply (add_then_list true (ash_likes 25) (pikachu_db []) "Pikachu").
  - simpl. apply elem_of_singleton. reflexivity.
  - vm_compute. reflexivity.
  - apply not_elem_of_nil.
Defined.

Lemma createFavourite_rows (uq : bool) (req : Request) (db : Db) :
  is_Some (Pokemon_rows db !! params_pokemon_id req) →
  favourite_of req ∈ Favourite_rows (createFavourite uq req db).1
  ∧ ∀ g, g ∈ Favourite_rows (createFavourite uq req db).1 →
         g ∈ Favourite_rows db ∨ g = favourite_of req.
Proof.
  intros Hp.
  destruct (decide (favourite_of req ∈ Favourite_rows db)) as [Hin|Hin].
  - rewrite (createFavourite_duplicate _ _ _ Hp Hin). simpl. auto.
  - rewrite (createFavourite_fresh _ _ _ Hp Hin). simpl. split.
    + apply elem_of_app. right. apply list_elem_of_here.
    + intros g [Hg|Hg%list_elem_of_singleton]%elem_of_app; auto.
Qed.

Lemma filter_none {A : Type} (P : A → Prop) `{!∀ x, Decision (P x)}
    (l : list A) :
  (∀ x, x ∈ l → ¬ P x) → filter P l = [].
Proof.
  induction l as [|x l IH]; intros Hall; [done|].
  rewrite filter_cons, decide_False
    by (apply Hall, list_elem_of_here).
  apply IH. intros y Hy. apply Hall. by apply list_elem_of_further.
Qed.

Lemma join_catalog_drop_id catalog pid rows :
  join_catalog catalog (filter (λ g, pokemon_id g ≠ pid) rows)
  = filter (λ e, e.1 ≠ pid) (join_catalog catalog rows).
Proof.
  induction rows as [|g rows IH]; [done|].
  rewrite filter_cons, (join_catalog_cons catalog g rows).
  destruct (decide (pokemon_id g ≠ pid)) as [Hp|Hp].
  - rewrite join_catalog_cons.
    destruct (catalog !! pokemon_id g); [|done].
    rewrite filter_cons. simpl. rewrite decide_True by done. by rewrite IH.
  - destruct (catalog !! pokemon_id g); [|done].
    rewrite filter_cons. simpl. by rewrite decide_False by done.
Qed.

Lemma rows_of_user_drop_pair uid pid rows :
  rows_of_user uid (filter (λ g, ¬ same_pair uid pid g) rows)
  = filter (λ g, pokemon_id g ≠ pid) (rows_of_user uid rows).
Proof.
  unfold rows_of_user. rewrite !list_filter_filter.
  apply list_filter_iff. intros g. unfold same_pair. split.
  - intros [Hu Hn]. split; [|done]. intros Hp. apply Hn. by split.
  - intros [Hp Hu]. split; [done|]. by intros [_ ?].
Qed.

(** What the user's list is made of after an add and a remove of a pair:
    what it was made of before, without the entries of that id. *)
Lemma joined_after_add_remove (uq : bool) (req : Request) (db : Db) :
  is_Some (Pokemon_rows db !! params_pokemon_id req) →
  let db2 := (deleteFavourite req (createFavourite uq req db).1).1 in
  User_rows db2 = User_rows db
  ∧ joined_pokemons (user_id_of req) db2
    = filter (λ e, e.1 ≠ params_pokemon_id req)
             (joined_pokemons (user_id_of req) db).
Proof.
  intros Hp db2.
  destruct (createFavourite_rows uq req db Hp) as [Hin1 _].
  assert (db2 = set_Favourite_rows
            (filter (λ g, ¬ same_pair (user_id_of req)
                                      (params_pokemon_id req) g)
                    (Favourite_rows (createFavourite uq req db).1))
            (createFavourite uq req db).1) as ->
    by (subst db2; by rewrite (deleteFavourite_present _ _ Hin1)).
  destruct (createFavourite_reads_only uq req db) as [Hcat Husers].
  split; [done|]. unfold joined_pokemons.
  cbn [Pokemon_rows Favourite_rows set_Favourite_rows].
  rewrite Hcat, rows_of_user_drop_pair, <- join_catalog_drop_id. f_equal.
  rewrite createFavourite_unfold.
  destruct (Pokemon_rows db !! params_pokemon_id req); [|done].
  destruct (rows_for _ _ _); [|done].
  cbn [fst Favourite_rows set_Favourite_rows].
  rewrite rows_of_user_app, filter_app.
  unfold rows_of_user at 2, favourite_of.
  rewrite filter_cons, filter_nil. simpl. rewrite decide_True by done.
  rewrite filter_cons, filter_nil. simpl.
  rewrite decide_False by (by intros ?). apply app_nil_r.
Qed.

(** C8: for a user with a User row and an existing catalog entry, on a
    table with at most one row per pair, after add and then remove the
    list either is refused with the 404 "no favourite" error or is sent
    without any entry of that id.  It is the 404 error when the user had
    no favourite row of another entry, and more exactly when the user's
    list had no entry of another id; when it had some, the list is sent
    and holds just those entries: every other catalog entry the user has
    a favourite row for is in it. *)
Theorem add_remove_then_list (uq : bool) (req : Request) (db : Db) :
  unique_pairs (Favourite_rows db) →
  user_id_of req ∈ User_rows db →
  is_Some (Pokemon_rows db !! params_pokemon_id req) →
  let db1 := (createFavourite uq req db).1 in
  let db2 := (deleteFavourite req db1).1 in
  let others :=
    filter (λ e, e.1 ≠ params_pokemon_id req)
           (joined_pokemons (user_id_of req) db) in
  (readFavourite req db2 = (db2, Next (err_no_favourites (user_id_of req)))
   ∨ ∃ l, readFavourite req db2 = (db2, listed l)
          ∧ ∀ e, e ∈ l → e.1 ≠ params_pokemon_id req)
  ∧ ((∀ f, f ∈ Favourite_rows db → user_id f = user_id_of req →
           pokemon_id f = params_pokemon_id req) →
     readFavourite req db2 =
       (db2, Next (err_no_favourites (user_id_of req))))
  ∧ (others = [] →
     readFavourite req db2 =
       (db2, Next (err_no_favourites (user_id_of req))))
  ∧ (others ≠ [] →
     ∃ l, readFavourite req db2 = (db2, listed l) ∧ l ≡ₚ others)
  ∧ (∀ f n, f ∈ Favourite_rows db → user_id f = user_id_of req →
            pokemon_id f ≠ params_pokemon_id req →
            Pokemon_rows db !! pokemon_id f = Some n →
     ∃ l, readFavourite req db2 = (db2, listed l) ∧ (pokemon_id f, n) ∈ l).
Proof.
  intros _ Hu Hp db1 db2 others.
  destruct (joined_after_add_remove uq req db Hp) as [Husers Hj].
  fold db1 db2 others in Husers, Hj.
  assert (others = filter (λ e, e.1 ≠ params_pokemon_id req)
                          (joined_pokemons (user_id_of req) db)) as Hdef
    by done.
  clearbody others db2.
  assert (user_id_of req ∈ User_rows db2) as Hu2 by (by rewrite Husers).
  assert (others = [] →
          readFavourite req db2 =
            (db2, Next (err_no_favourites (user_id_of req)))) as Hnone.
  { intros Ho. apply readFavourite_empty; [done|]. by rewrite Hj. }
  assert (others ≠ [] → readFavourite req db2 = (db2, listed others))
    as Hsome.
  { intros Ho. rewrite <- Hj. apply readFavourite_some; [done|].
    by rewrite Hj. }
  split_and!.
  - destruct (decide (others = [])) as [Ho|Ho]; [left; by apply Hnone|].
    right. exists others. split; [by apply Hsome|].
    intros e He. rewrite Hdef in He.
    by apply list_elem_of_filter in He as [? _].
  - intros Honly. apply Hnone. rewrite Hdef. unfold joined_pokemons.
    rewrite <- join_catalog_drop_id.
    assert (filter (λ g, pokemon_id g ≠ params_pokemon_id req)
              (rows_of_user (user_id_of req) (Favourite_rows db)) = [])
      as ->; [|done].
    apply filter_none. intros g Hg Hne.
    unfold rows_of_user in Hg. apply list_elem_of_filter in Hg as [Hgu Hg].
    by apply Hne, Honly.
  - done.
  - intros Ho. exists others. split; [by apply Hsome | done].
  - intros f n Hf Hfu Hfp Hn.
    assert ((pokemon_id f, n) ∈ others) as Hin.
    { rewrite Hdef. apply list_elem_of_filter. split; [done|].
      unfold joined_pokemons, join_catalog. apply list_elem_of_omap.
      exists f. split; [|by rewrite Hn].
      unfold rows_of_user. by apply list_elem_of_filter. }
    exists others. split; [|done]. apply Hsome. intros Ho.
    rewrite Ho in Hin. by apply not_elem_of_nil in Hin.
Qed.

Lemma add_remove_then_list_witness :
  let req := ash_likes 25 in
  let db := kanto_db [likes 7 4; likes 8 25] in
  let db1 := (createFavourite true req db).1 in
  let db2 := (deleteFavourite req db1).1 in
  let others :=
    filter (λ e, e.1 ≠ params_pokemon_id req)
           (joined_pokemons (user_id_of req) db) in
  (readFavourite req db2 = (db2, Next (err_no_favourites (user_id_of req)))
   ∨ ∃ l, readFavourite req db2 = (db2, listed l)
          ∧ ∀ e, e ∈ l → e.1 ≠ params_pokemon_id req)
  ∧ ((∀ f, f ∈ Favourite_rows db → user_id f = user_id_of req →
           pokemon_id f = params_pokemon_id req) →
     readFavourite req db2 =
       (db2, Next (err_no_favourites (user_id_of req))))
  ∧ (others = [] →
     readFavourite req db2 =
       (db2, Next (err_no_favourites (user_id_of req))))
  ∧ (others ≠ [] →
     ∃ l, readFavourite req db2 = (db2, listed l) ∧ l ≡ₚ others)
  ∧ (∀ f n, f ∈ Favourite_rows db → user_id f = user_id_of req →
            pokemon_id f ≠ params_pokemon_id req →
            Pokemon_rows db !! pokemon_id f = Some n →
     ∃ l, readFavourite req db2 = (db2, listed l) ∧ (pokemon_id f, n) ∈ l).
Proof.
  apply (add_remove_then_list true (ash_likes 25)
           (kanto_db [likes 7 4; likes 8 25])).
  - apply NoDup_unique_pairs. apply (bool_decide_unpack _). vm_compute.
    reflexivity.
  - apply (bool_decide_unpack _). vm_compute. reflexivity.
  - vm_compute. eauto.
Defined.

(** In that example the user also likes entry 4, and the list is sent
    with it. *)
Example add_remove_then_list_example :
  let db := kanto_db [likes 7 4; likes 8 25] in
  let db2 := (deleteFavourite (ash_likes 25)
                (createFavourite true (ash_likes 25) db).1).1 in
  db2 = db
  ∧ readFavourite (ash_likes 25) db2 = (db2, listed [(4%Z, "Charmander")]).
Proof. vm_compute. split; reflexivity. Qed.

(** C10: the list handler reads [user.pokemons] without a null check: its
    body resolves (with the 404 error or the 200 list) exactly when the
    acting user's id has a User row, and for an id without one it rejects
    with a TypeError, which reaches [next] in place of a structured 404 or
    400 error. *)
Theorem readFavourite_null_user (req : Request) (db : Db) :
  ((∃ r, run (readFavourite_body req) db = (db, Resolved r)
         ∧ (r = Next (err_no_favourites (user_id_of req))
            ∨ ∃ l, l ≠ [] ∧ r = listed l))
   ↔ user_id_of req ∈ User_rows db)
  ∧ (run (readFavourite_body req) db = (db, Rejected TypeError)
     ∧ readFavourite req db = (db, Next TypeError)
     ↔ user_id_of req ∉ User_rows db).
Proof.
  unfold readFavourite, catchAsync, readFavourite_body. simpl.
  destruct (decide (user_id_of req ∈ User_rows db)) as [Hu|Hu]; simpl.
  - split.
    + split; [done|]. intros _.
      destruct (joined_pokemons _ _) as [|e l] eqn:E; simpl.
      * eexists. split; [done|]. by left.
      * eexists. split; [done|]. right. by exists (e :: l).
    + split; [|done]. destruct (joined_pokemons _ _); simpl; by intros [? _].
  - split; [|done]. split; [|done]. by intros (r & ? & _).
Qed.

(** An authenticated request of user 8, who has no User row. *)
Example readFavourite_null_user_example :
  readFavourite {| params_pokemon_id := 25; user_id_of := 8 |}
                (pikachu_db [favourite_of (ash_likes 25)])
  = (pikachu_db [favourite_of (ash_likes 25)], Next TypeError).
Proof. vm_compute. reflexivity. Qed.

(** Running a handler is taking its steps one after the other. *)
Lemma run_step {R : Type} (p : Prog R) (db : Db) :
  run p db = run (step p db).2 (step p db).1.
Proof.
  destruct p as [r|e|X op k]; simpl; [done..|].
  by destruct (op db) as [db' [x|e]].
Qed.

Lemma run_settled {R : Type} (p : Prog R) (db : Db) (s : Settled R) :
  settled p = Some s → run p db = (db, s).
Proof. destruct p; simpl; intros [= <-]; done. Qed.

(** A request that takes all its turns with nothing in between is the
    handler run on its own. *)
Lemma interleave_first_alone (n : nat) (s : Flight) :
  run (first (interleave (replicate n First) s))
      (store (interleave (replicate n First) s))
  = run (first s) (store s).
Proof.
  revert s. induction n as [|n IH]; intros s; [done|].
  simpl. rewrite IH. unfold take_turn.
  rewrite (run_step (first s) (store s)).
  by destruct (step (first s) (store s)).
Qed.

Lemma interleave_first_alone_settled (n : nat) (s : Flight) r :
  settled (first (interleave (replicate n First) s)) = Some r →
  run (first s) (store s) = (store (interleave (replicate n First) s), r).
Proof.
  intros Hr. rewrite <- (interleave_first_alone n s).
  by apply run_settled.
Qed.

Lemma createFavourite_body_stages uq req :
  createFavourite_body uq req =
    (await pokemon ← Pokemon_findByPk (params_pokemon_id req);
     if negb (bool_decide (is_Some pokemon)) then
       Return (Next (err_pokemon_not_found (params_pokemon_id req)))
     else create_check uq req).
Proof. reflexivity. Qed.

Lemma step_prog_of uq req st db :
  step (prog_of uq req st) db =
    ((stage_step uq req st db).1, prog_of uq req (stage_step uq req st db).2).
Proof.
  destruct st as [| | |[r|e]]; try done.
  - cbn [prog_of]. rewrite createFavourite_body_stages. simpl.
    by destruct (Pokemon_rows db !! params_pokemon_id req).
  - simpl. destruct (decide _) as [Hin|Hin].
    + destruct (rows_for _ _ _) eqn:E; [|done].
      by apply rows_for_request in E.
    + apply rows_for_request in Hin. by rewrite Hin.
  - simpl. unfold Favourite_create.
    destruct (decide (favourite_of req ∈ Favourite_rows db)) as [Hin|Hin].
    + rewrite (bool_decide_eq_true_2 _ Hin).
      rewrite bool_decide_eq_true_2
        by (by rewrite rows_for_request; intros ?).
      by destruct uq.
    + rewrite (bool_decide_eq_false_2 _ Hin).
      rewrite bool_decide_eq_false_2
        by (by rewrite rows_for_request; intros ?).
      by rewrite andb_false_r.
Qed.

Lemma stage_step_awaits_left uq req st db :
  awaits_left (stage_step uq req st db).2 ≤ pred (awaits_left st).
Proof.
  destruct st; simpl; repeat case_match; simpl; lia.
Qed.

(** ** Two add requests in flight: the invariant *)

Section Race.

Variable req : Request.

Lemma race_inv_sym db st1 st2 : race_inv req db st1 st2 → race_inv req db st2 st1.
Proof. unfold race_inv. tauto. Qed.

Lemma race_inv_step db st1 st2 :
  race_inv req db st1 st2 →
  race_inv req (stage_step true req st1 db).1 (stage_step true req st1 db).2 st2.
Proof.
  intros (Hp & Hu & Hok1 & Hok2 & He1 & He2 & Hnot).
  unfold race_inv. destruct st1 as [| | |s]; simpl.
  - destruct Hp as [n Hn]. rewrite Hn.
    repeat split; try done. by intros [[=] _].
  - destruct (decide _) as [Hin|Hin].
    + repeat split; try done.
      * right. by left.
      * by intros [[=] _].
    + repeat split; try done. by intros [[=] _].
  - destruct (decide (favourite_of req ∈ Favourite_rows db)) as [Hin|Hin].
    + rewrite (bool_decide_eq_true_2 _ Hin). simpl.
      repeat split; try done.
      * right. by right.
      * by intros [[=] _].
    + rewrite (bool_decide_eq_false_2 _ Hin). simpl.
      assert (favourite_of req ∈ Favourite_rows db ++ [favourite_of req])
        as Hnew by (apply elem_of_app; right; apply list_elem_of_here).
      repeat split; try done.
      * apply unique_pairs_create; [done | by apply rows_for_request].
      * by left.
      * intros [_ Hc]. apply Hin, He2. by rewrite Hc.
  - repeat split; done.
Qed.

Lemma take_turn_inv t s n1 n2 :
  flight_inv req s n1 n2 →
  flight_inv req (take_turn t s)
    (if decide (t = First) then pred n1 else n1)
    (if decide (t = Second) then pred n2 else n2).
Proof.
  intros (st1 & st2 & H1 & H2 & Hinv & Hn1 & Hn2).
  destruct t; unfold take_turn.
  - rewrite H1, step_prog_of.
    exists (stage_step true req st1 (store s)).2, st2. simpl.
    split_and!; try done.
    + by apply race_inv_step.
    + pose proof (stage_step_awaits_left true req st1 (store s)). lia.
  - rewrite H2, step_prog_of.
    exists st1, (stage_step true req st2 (store s)).2. simpl.
    split_and!; try done.
    + by apply race_inv_sym, race_inv_step, race_inv_sym.
    + pose proof (stage_step_awaits_left true req st2 (store s)). lia.
Qed.

Lemma interleave_inv sched s n1 n2 :
  flight_inv req s n1 n2 →
  flight_inv req (interleave sched s)
    (n1 - turns_of First sched) (n2 - turns_of Second sched).
Proof.
  revert s n1 n2. induction sched as [|t sched IH]; intros s n1 n2 Hs.
  - unfold turns_of. simpl. by rewrite !Nat.sub_0_r.
  - simpl. apply (take_turn_inv t) in Hs. apply IH in Hs.
    unfold turns_of in *. rewrite !filter_cons.
    destruct t; simpl in *.
    + replace (n1 - S (length (filter (λ t', t' = First) sched)))
        with (pred n1 - length (filter (λ t', t' = First) sched)) by lia.
      done.
    + replace (n2 - S (length (filter (λ t', t' = Second) sched)))
        with (pred n2 - length (filter (λ t', t' = Second) sched)) by lia.
      done.
Qed.

Lemma flight_inv_start db :
  is_Some (Pokemon_rows db !! params_pokemon_id req) →
  unique_pairs (Favourite_rows db) →
  flight_inv req {| store := db;
                first := createFavourite_body true req;
                second := createFavourite_body true req |} 3 3.
Proof.
  intros Hp Hu. exists AtLookup, AtLookup. simpl.
  repeat split; try done. by intros [[=] _].
Qed.

End Race.

(** C9: two add requests for the same pair of a user and an existing
    catalog entry, on a store that enforces the uniqueness constraint and
    a table with at most one row per pair: whatever the order in which the
    two handlers take their steps, once each has had its three turns both
    have ended, the table holds exactly one row of the pair and still at
    most one row per pair, each request ends with 201 or a Conflict, and at
    least one of them ends with a Conflict. *)
Theorem concurrent_adds_store_one_row
    (req : Request) (db : Db) (sched : list Turn) :
  is_Some (Pokemon_rows db !! params_pokemon_id req) →
  unique_pairs (Favourite_rows db) →
  3 ≤ turns_of First sched →
  3 ≤ turns_of Second sched →
  let s := interleave sched
             {| store := db;
                first := createFavourite_body true req;
                second := createFavourite_body true req |} in
  ∃ r1 r2,
    settled (first s) = Some r1
    ∧ settled (second s) = Some r2
    ∧ length (rows_for (user_id_of req) (params_pokemon_id req)
                       (Favourite_rows (store s))) = 1
    ∧ unique_pairs (Favourite_rows (store s))
    ∧ (reply_of r1 = created req ∨ observes_conflict req (reply_of r1))
    ∧ (reply_of r2 = created req ∨ observes_conflict req (reply_of r2))
    ∧ (observes_conflict req (reply_of r1)
       ∨ observes_conflict req (reply_of r2)).
Proof.
  intros Hp Hu Ht1 Ht2 s.
  destruct (interleave_inv req sched _ 3 3 (flight_inv_start req db Hp Hu))
    as (st1 & st2 & H1 & H2 & Hinv & Hn1 & Hn2).
  fold s in H1, H2, Hinv.
  destruct Hinv as (_ & Hu' & Hok1 & Hok2 & He1 & _ & Hnot).
  destruct st1 as [| | |r1]; simpl in Hn1; try lia.
  destruct st2 as [| | |r2]; simpl in Hn2; try lia.
  exists r1, r2. rewrite H1, H2.
  split; [by destruct r1|]. split; [by destruct r2|].
  split; [|split; [done|]].
  { specialize (He1 eq_refl). specialize (Hu' (user_id_of req)
                                              (params_pokemon_id req)).
    destruct (rows_for _ _ _) as [|f [|f' fs]] eqn:E; simpl in *;
      [|done|lia].
    by apply rows_for_request in E. }
  simpl in Hok1, Hok2.
  assert (∀ r, r = Resolved (created req) ∨ observes_conflict req (reply_of r)
            → reply_of r = created req ∨ observes_conflict req (reply_of r))
    as Hre by (intros r [->|?]; auto).
  split; [by apply Hre|]. split; [by apply Hre|].
  destruct Hok1 as [->|?]; [|by left].
  destruct Hok2 as [->|?]; [|by right].
  destruct Hnot. by split.
Qed.

Lemma concurrent_adds_store_one_row_witness :
  let s := interleave [First; Second; First; Second; First; Second]
             {| store := pikachu_db [];
                first := createFavourite_body true (ash_likes 25);
                second := createFavourite_body true (ash_likes 25) |} in
  ∃ r1 r2,
    settled (first s) = Some r1
    ∧ settled (second s) = Some r2
    ∧ length (rows_for 7 25 (Favourite_rows (store s))) = 1
    ∧ unique_pairs (Favourite_rows (store s))
    ∧ (reply_of r1 = created (ash_likes 25)
       ∨ observes_conflict (ash_likes 25) (reply_of r1))
    ∧ (reply_of r2 = created (ash_likes 25)
       ∨ observes_conflict (ash_likes 25) (reply_of r2))
    ∧ (observes_conflict (ash_likes 25) (reply_of r1)
       ∨ observes_conflict (ash_likes 25) (reply_of r2)).
Proof.
  apply (concurrent_adds_store_one_row (ash_likes 25) (pikachu_db [])
           [First; Second; First; Second; First; Second]).
  - vm_compute. eauto.
  - apply unique_pairs_nil.
  - vm_compute. lia.
  - vm_compute. lia.
Defined.

(** The same race on a store that does not enforce the constraint: both
    lookups pass before either insert, and two rows are stored. *)
Example race_without_unique_constraint :
  let s := interleave [First; Second; First; Second; First; Second]
             {| store := pikachu_db [];
                first := createFavourite_body false (ash_likes 25);
                second := createFavourite_body false (ash_likes 25) |} in
  Favourite_rows (store s)
    = [favourite_of (ash_likes 25); favourite_of (ash_likes 25)]
  ∧ settled (first s) = Some (Resolved (created (ash_likes 25)))
  ∧ settled (second s) = Some (Resolved (created (ash_likes 25))).
Proof. vm_compute. repeat split. Qed.

(** With the constraint, the request that inserts second is refused by
    the store. *)
Example race_with_unique_constraint :
  let s := interleave [First; Second; First; Second; First; Second]
             {| store := pikachu_db [];
                first := createFavourite_body true (ash_likes 25);
                second := createFavourite_body true (ash_likes 25) |} in
  Favourite_rows (store s) = [favourite_of (ash_likes 25)]
  ∧ settled (first s) = Some (Resolved (created (ash_likes 25)))
  ∧ settled (second s) = Some (Rejected SequelizeUniqueConstraintError).
Proof. vm_compute. repeat split. Qed.

(** ** More on the three handlers *)

(** X1: whatever the request, the tables and the store's setting, the add
    handler body resolves and its reply is the 404 "not found" error, the
    400 "already liked" error or the 201 response; it never rejects with
    the store's unique-constraint error, and the "Failed to add" branch is
    never taken. *)
Theorem createFavourite_three_outcomes (uq : bool) (req : Request) (db : Db) :
  (∃ r, run (createFavourite_body uq req) db
        = ((createFavourite uq req db).1, Resolved r))
  ∧ ((createFavourite uq req db).2
       = Next (err_pokemon_not_found (params_pokemon_id req))
     ∨ (createFavourite uq req db).2
       = Next (err_already_liked (user_id_of req) (params_pokemon_id req))
     ∨ (createFavourite uq req db).2 = created req)
  ∧ (createFavourite uq req db).2 ≠ Next SequelizeUniqueConstraintError
  ∧ (createFavourite uq req db).2
      ≠ Next (AppError "Failed to add Pokémon to favourites" 400).
Proof.
  split.
  - unfold createFavourite, catchAsync, createFavourite_body. simpl.
    destruct (Pokemon_rows db !! params_pokemon_id req); simpl; [|eauto].
    unfold Favourite_create.
    destruct (rows_for _ _ _) as [|f fs] eqn:E; simpl; [|eauto].
    rewrite E, andb_false_r. simpl. eauto.
  - rewrite createFavourite_unfold.
    destruct (Pokemon_rows db !! _).
    + destruct (rows_for _ _ _); simpl; split_and!; auto; done.
    + simpl. split_and!; auto; done.
Qed.

(** X2: listing writes nothing: whatever it answers, also when it rejects
    for a user without a User row, the tables are returned as they were. *)
Theorem readFavourite_writes_nothing (req : Request) (db : Db) :
  (readFavourite req db).1 = db.
Proof.
  rewrite readFavourite_unfold. destruct (decide _); [|done].
  by destruct (joined_pokemons _ _).
Qed.

(** X3: over any sequence of add and remove operations the User rows and
    the Pokémon catalog stay what they were. *)
Theorem history_keeps_users_and_catalog
    (uq : bool) (ops : list Op) (db : Db) :
  Forall (λ d, User_rows d = User_rows db
               ∧ Pokemon_rows d = Pokemon_rows db) (history uq ops db).
Proof.
  revert db. induction ops as [|o ops IH]; intros db; simpl; [constructor|].
  assert (User_rows (perform uq o db) = User_rows db
          ∧ Pokemon_rows (perform uq o db) = Pokemon_rows db) as [Hu Hp].
  { destruct o; simpl.
    - destruct (createFavourite_reads_only uq req db). done.
    - destruct (deleteFavourite_reads_only req db). done. }
  constructor; [done|]. rewrite <- Hu, <- Hp. apply IH.
Qed.

Lemma set_Favourite_rows_same (db : Db) :
  set_Favourite_rows (Favourite_rows db) db = db.
Proof. by destruct db. Qed.

Lemma destroy_created uid pid rows :
  {| user_id := uid; pokemon_id := pid |} ∉ rows →
  filter (λ g, ¬ same_pair uid pid g)
         (rows ++ [{| user_id := uid; pokemon_id := pid |}]) = rows.
Proof.
  intros Hin. apply rows_for_nil_iff in Hin.
  rewrite filter_app, (destroy_absent _ _ _ Hin), filter_cons, filter_nil.
  destruct (decide _) as [Hn|_]; [|by rewrite app_nil_r].
  destruct Hn. by split.
Qed.

(** X4: for an existing catalog entry the user has not favourited, add
    followed by remove answers 204 and gives back the tables exactly as
    they were before the add. *)
Theorem add_then_remove_restores (uq : bool) (req : Request) (db : Db) :
  is_Some (Pokemon_rows db !! params_pokemon_id req) →
  favourite_of req ∉ Favourite_rows db →
  (createFavourite uq req db).2 = created req
  ∧ deleteFavourite req (createFavourite uq req db).1 = (db, deleted req).
Proof.
  intros Hp Hfresh. rewrite (createFavourite_fresh _ _ _ Hp Hfresh).
  split; [done|]. rewrite deleteFavourite_present.
  - cbn [fst Favourite_rows set_Favourite_rows]. unfold favourite_of.
    rewrite destroy_created by done. f_equal. by destruct db.
  - simpl. apply elem_of_app. right. apply list_elem_of_here.
Qed.

Lemma add_then_remove_restores_witness :
  (createFavourite true (ash_likes 25) (pikachu_db [])).2
    = created (ash_likes 25)
  ∧ deleteFavourite (ash_likes 25)
      (createFavourite true (ash_likes 25) (pikachu_db [])).1
    = (pikachu_db [], deleted (ash_likes 25)).
Proof.
  apply (add_then_remove_restores true (ash_likes 25) (pikachu_db [])).
  - vm_compute. eauto.
  - apply not_elem_of_nil.
Defined.

Lemma deleteFavourite_leaves_no_row (req : Request) (db : Db) :
  favourite_of req ∉ Favourite_rows (deleteFavourite req db).1.
Proof.
  destruct (decide (favourite_of req ∈ Favourite_rows db)) as [Hin|Hin].
  - rewrite (deleteFavourite_present _ _ Hin). simpl.
    apply rows_for_nil_iff. rewrite rows_for_destroy. by rewrite decide_True.
  - by rewrite (deleteFavourite_absent _ _ Hin).
Qed.

(** X5: on a table with at most one row per pair, whatever the first
    remove did, a second remove of the same pair is answered with the 404
    "doesn't like" error and leaves the tables as the first remove left
    them. *)
Theorem deleteFavourite_twice (req : Request) (db : Db) :
  unique_pairs (Favourite_rows db) →
  let db1 := (deleteFavourite req db).1 in
  deleteFavourite req db1 =
    (db1, Next (err_not_liked (user_id_of req) (params_pokemon_id req))).
Proof.
  intros _ db1. apply deleteFavourite_absent.
  apply deleteFavourite_leaves_no_row.
Qed.

Lemma deleteFavourite_twice_witness :
  let db := kanto_db [likes 7 4; likes 7 25; likes 8 25] in
  let db1 := (deleteFavourite (ash_likes 25) db).1 in
  deleteFavourite (ash_likes 25) db1 = (db1, Next (err_not_liked 7 25)).
Proof.
  apply (deleteFavourite_twice (ash_likes 25)
           (kanto_db [likes 7 4; likes 7 25; likes 8 25])).
  apply NoDup_unique_pairs. apply (bool_decide_unpack _). vm_compute.
  reflexivity.
Defined.

(** In that example the first remove answers 204 and the second 404. *)
Example deleteFavourite_twice_example :
  let db := kanto_db [likes 7 4; likes 7 25; likes 8 25] in
  deleteFavourite (ash_likes 25) db
    = (kanto_db [likes 7 4; likes 8 25],
       Sent {| statusCode := 204; body := None |})
  ∧ deleteFavourite (ash_likes 25) (kanto_db [likes 7 4; likes 8 25])
    = (kanto_db [likes 7 4; likes 8 25], Next (err_not_liked 7 25)).
Proof. vm_compute. split; reflexivity. Qed.

Lemma rows_of_user_create uid uid' pid rows :
  uid' ≠ uid →
  rows_of_user uid (rows ++ [{| user_id := uid'; pokemon_id := pid |}])
  = rows_of_user uid rows.
Proof.
  intros Hne. unfold rows_of_user.
  rewrite filter_app, filter_cons, filter_nil. simpl.
  destruct (decide (uid' = uid)); [done | apply app_nil_r].
Qed.

Lemma rows_of_user_destroy uid uid' pid rows :
  uid' ≠ uid →
  rows_of_user uid (filter (λ g, ¬ same_pair uid' pid g) rows)
  = rows_of_user uid rows.
Proof.
  intros Hne. unfold rows_of_user. rewrite list_filter_filter.
  apply list_filter_iff. intros g. split; [tauto|].
  intros Hg. split; [done|]. intros [Hu _]. congruence.
Qed.

(** X6: an add or a remove by one user leaves what any other user is
    answered on listing as it was. *)
Theorem other_users_list_unchanged
    (uq : bool) (o : Op) (req' : Request) (db : Db) :
  op_user o ≠ user_id_of req' →
  (readFavourite req' (perform uq o db)).2 = (readFavourite req' db).2.
Proof.
  intros Hne.
  assert (User_rows (perform uq o db) = User_rows db
          ∧ joined_pokemons (user_id_of req') (perform uq o db)
            = joined_pokemons (user_id_of req') db) as [Hu Hj].
  { unfold joined_pokemons. destruct o as [req|req]; simpl in *.
    - rewrite createFavourite_unfold.
      destruct (Pokemon_rows db !! _); [|done].
      destruct (rows_for _ _ _); [|done].
      cbn [fst User_rows Pokemon_rows Favourite_rows set_Favourite_rows].
      unfold favourite_of. by rewrite rows_of_user_create.
    - rewrite deleteFavourite_unfold.
      destruct (rows_for _ _ _) as [|f fs] eqn:E; [done|].
      assert (f ∈ rows_for (user_id_of req) (params_pokemon_id req)
                           (Favourite_rows db)) as Hf
        by (rewrite E; apply list_elem_of_here).
      apply rows_for_elem in Hf as [-> _].
      cbn [fst User_rows Pokemon_rows Favourite_rows set_Favourite_rows
           user_id pokemon_id].
      by rewrite rows_of_user_destroy. }
  rewrite !readFavourite_unfold, Hu, Hj.
  destruct (decide _); [|done].
  by destruct (joined_pokemons (user_id_of req') db).
Qed.

Lemma other_users_list_unchanged_witness :
  let db := kanto_db [likes 8 4; likes 7 4] in
  (readFavourite (misty_likes 4) db).2 = listed [(4%Z, "Charmander")]
  ∧ Favourite_rows (perform true (AddFavourite (ash_likes 25)) db)
    = [likes 8 4; likes 7 4; likes 7 25]
  ∧ (readFavourite (misty_likes 4)
       (perform true (AddFavourite (ash_likes 25)) db)).2
    = (readFavourite (misty_likes 4) db).2
  ∧ Favourite_rows (perform true (RemoveFavourite (ash_likes 4)) db)
    = [likes 8 4]
  ∧ (readFavourite (misty_likes 4)
       (perform true (RemoveFavourite (ash_likes 4)) db)).2
    = (readFavourite (misty_likes 4) db).2.
Proof.
  intros db. split_and!.
  - vm_compute. reflexivity.
  - vm_compute. reflexivity.
  - apply (other_users_list_unchanged true (AddFavourite (ash_likes 25))
             (misty_likes 4) db).
    simpl. lia.
  - vm_compute. reflexivity.
  - apply (other_users_list_unchanged true (RemoveFavourite (ash_likes 4))
             (misty_likes 4) db).
    simpl. lia.
Defined.

Lemma unique_pairs_tail g rows :
  unique_pairs (g :: rows) → unique_pairs rows.
Proof.
  intros Hu uid pid. specialize (Hu uid pid). revert Hu.
  unfold rows_for. rewrite filter_cons. destruct (decide _); simpl; lia.
Qed.

Lemma unique_pairs_head g rows :
  unique_pairs (g :: rows) → g ∉ rows.
Proof.
  intros Hu Hin. specialize (Hu (user_id g) (pokemon_id g)). revert Hu.
  unfold rows_for. rewrite filter_cons, decide_True by done.
  assert (g ∈ filter (same_pair (user_id g) (pokemon_id g)) rows) as Hg
    by (by apply list_elem_of_filter).
  destruct (filter _ rows); [by apply not_elem_of_nil in Hg|].
  simpl. lia.
Qed.

Lemma join_catalog_ids_from_rows catalog rows i :
  i ∈ (join_catalog catalog rows).*1 →
  ∃ f, f ∈ rows ∧ pokemon_id f = i.
Proof.
  intros ([i' n] & -> & He)%list_elem_of_fmap.
  apply list_elem_of_omap in He as (f & Hf & Hlk).
  exists f. split; [done|].
  destruct (catalog !! pokemon_id f); simpl in Hlk; by inversion Hlk.
Qed.

Lemma joined_ids_NoDup catalog uid rows :
  unique_pairs rows →
  NoDup (join_catalog catalog (rows_of_user uid rows)).*1.
Proof.
  unfold rows_of_user. induction rows as [|g rows IH]; intros Hu.
  - constructor.
  - pose proof (unique_pairs_head _ _ Hu) as Hg.
    specialize (IH (unique_pairs_tail _ _ Hu)).
    rewrite filter_cons. destruct (decide (user_id g = uid)) as [Hgu|]; [|done].
    rewrite join_catalog_cons.
    destruct (catalog !! pokemon_id g); [|done].
    rewrite fmap_cons. apply NoDup_cons. split; [|done]. simpl.
    intros (f & Hf & Hp)%join_catalog_ids_from_rows.
    apply list_elem_of_filter in Hf as [Hfu Hf].
    apply Hg. replace g with f; [done|].
    destruct f, g; simpl in *; congruence.
Qed.

(** X7: on a table with at most one row per pair, a list that is sent
    names no catalog entry twice. *)
Theorem listed_ids_are_distinct
    (req : Request) (db : Db) (l : list (Z * string)) :
  unique_pairs (Favourite_rows db) →
  readFavourite req db = (db, listed l) →
  NoDup l.*1.
Proof.
  intros Hu. rewrite readFavourite_unfold.
  destruct (decide _) as [Hin|Hin]; [|done].
  destruct (joined_pokemons _ _) as [|e0 l0] eqn:E; [done|].
  intros [= <-]. rewrite <- E. by apply joined_ids_NoDup.
Qed.

Lemma listed_ids_are_distinct_witness :
  readFavourite (ash_likes 25)
    (kanto_db [likes 7 4; likes 8 25; likes 7 25; likes 8 4])
  = (kanto_db [likes 7 4; likes 8 25; likes 7 25; likes 8 4],
     listed [(4%Z, "Charmander"); (25%Z, "Pikachu")])
  ∧ NoDup [(4%Z, "Charmander"); (25%Z, "Pikachu")].*1.
Proof.
  assert (readFavourite (ash_likes 25)
            (kanto_db [likes 7 4; likes 8 25; likes 7 25; likes 8 4])
          = (kanto_db [likes 7 4; likes 8 25; likes 7 25; likes 8 4],
             listed [(4%Z, "Charmander"); (25%Z, "Pikachu")])) as Hlist
    by (vm_compute; reflexivity).
  split; [exact Hlist|].
  apply (listed_ids_are_distinct (ash_likes 25)
           (kanto_db [likes 7 4; likes 8 25; likes 7 25; likes 8 4])).
  - apply NoDup_unique_pairs. apply (bool_decide_unpack _). vm_compute.
    reflexivity.
  - exact Hlist.
Defined.

Lemma join_catalog_names catalog rows e :
  e ∈ join_catalog catalog rows → catalog !! e.1 = Some e.2.
Proof.
  intros (f & _ & Hlk)%list_elem_of_omap.
  destruct (catalog !! pokemon_id f) eqn:Hc; simpl in Hlk; [|done].
  by inversion Hlk; subst.
Qed.

Lemma join_catalog_ids catalog rows :
  (∀ f, f ∈ rows → is_Some (catalog !! pokemon_id f)) →
  (join_catalog catalog rows).*1 = pokemon_id <$> rows.
Proof.
  induction rows as [|g rows IH]; intros H; [done|].
  destruct (H g (list_elem_of_here _ _)) as [n Hn].
  rewrite join_catalog_cons, Hn, !fmap_cons. simpl. f_equal.
  apply IH. intros f Hf. apply H. by apply list_elem_of_further.
Qed.

(** X8: on a table with at most one row per pair, a list that is sent
    carries, for each entry, the name the catalog has for its id; and when
    every favourite row points at a catalog entry, the ids of the list are
    the pokemon ids of the user's favourite rows, each row's id once, in
    no particular order. *)
Theorem listed_follows_rows
    (req : Request) (db : Db) (l : list (Z * string)) :
  unique_pairs (Favourite_rows db) →
  readFavourite req db = (db, listed l) →
  (∀ e, e ∈ l → Pokemon_rows db !! e.1 = Some e.2)
  ∧ (references_pokemon db →
     l.*1 ≡ₚ pokemon_id <$> rows_of_user (user_id_of req)
                                          (Favourite_rows db)).
Proof.
  intros _. rewrite readFavourite_unfold.
  destruct (decide _) as [Hin|Hin]; [|done].
  destruct (joined_pokemons _ _) as [|e0 l0] eqn:E; [done|].
  intros [= <-]. rewrite <- E. unfold joined_pokemons. split.
  - intros e. apply join_catalog_names.
  - intros Href. rewrite join_catalog_ids; [done|]. intros f Hf. apply Href.
    unfold rows_of_user in Hf. by apply list_elem_of_filter in Hf as [_ Hf].
Qed.

Lemma listed_follows_rows_witness :
  let db := kanto_db [likes 7 4; likes 8 25; likes 7 25; likes 8 4] in
  let l := [(4%Z, "Charmander"); (25%Z, "Pikachu")] in
  readFavourite (ash_likes 25) db = (db, listed l)
  ∧ (∀ e, e ∈ l → Pokemon_rows db !! e.1 = Some e.2)
  ∧ (references_pokemon db →
     l.*1 ≡ₚ pokemon_id <$> rows_of_user 7 (Favourite_rows db)).
Proof.
  intros db l.
  assert (readFavourite (ash_likes 25) db = (db, listed l)) as Hlist
    by (vm_compute; reflexivity).
  split; [exact Hlist|].
  apply (listed_follows_rows (ash_likes 25) db l).
  - apply NoDup_unique_pairs. apply (bool_decide_unpack _). vm_compute.
    reflexivity.
  - exact Hlist.
Defined.



Lemma elem_of_favourite_ids uid pid db :
  pid ∈ favourite_ids uid db
  ↔ {| user_id := uid; pokemon_id := pid |} ∈ Favourite_rows db.
Proof.
  unfold favourite_ids, rows_of_user.
  rewrite elem_of_list_to_set, list_elem_of_fmap. split.
  - intros (f & -> & [<- Hf]%list_elem_of_filter). by destruct f.
  - intros Hf. eexists. split; [|apply list_elem_of_filter; split; [|done]];
      done.
Qed.

(** X16: the handlers keep, for every user, a set of catalog ids: an add
    by that user for an existing catalog entry puts its id into the
    user's set and any other add leaves the set as it was; on a table
    with at most one row per pair, a remove by that user takes its id out
    and a remove by another user leaves the set as it was. *)
Theorem favourites_behave_as_a_set
    (uq : bool) (req : Request) (uid : Z) (db : Db) :
  favourite_ids uid (createFavourite uq req db).1
    = (if decide (user_id_of req = uid
                  ∧ is_Some (Pokemon_rows db !! params_pokemon_id req))
       then {[ params_pokemon_id req ]} ∪ favourite_ids uid db
       else favourite_ids uid db)
  ∧ (unique_pairs (Favourite_rows db) →
     favourite_ids uid (deleteFavourite req db).1
     = (if decide (user_id_of req = uid)
        then favourite_ids uid db ∖ {[ params_pokemon_id req ]}
        else favourite_ids uid db)).
Proof.
  split; [|intros _].
  - apply set_eq. intros i.
    assert (i ∈ favourite_ids uid (createFavourite uq req db).1
            ↔ i ∈ favourite_ids uid db
              ∨ (is_Some (Pokemon_rows db !! params_pokemon_id req)
                 ∧ user_id_of req = uid ∧ i = params_pokemon_id req)) as ->.
    { rewrite !elem_of_favourite_ids, createFavourite_unfold.
      destruct (Pokemon_rows db !! params_pokemon_id req) as [n|] eqn:Hn.
      - destruct (rows_for _ _ _) eqn:E; simpl.
        + rewrite elem_of_app, list_elem_of_singleton. unfold favourite_of.
          split; (intros [?|H]; [by left|right]).
          * inversion H. eauto.
          * destruct H as (_ & -> & ->). done.
        + split; [by left|]. intros [?|(_ & <- & ->)]; [done|].
          assert (f ∈ rows_for (user_id_of req) (params_pokemon_id req)
                               (Favourite_rows db)) as Hf
            by (rewrite E; apply list_elem_of_here).
          by apply rows_for_elem in Hf as [-> ?].
      - simpl. split; [by left|]. intros [?|([? ?] & _)]; done. }
    destruct (decide _) as [[Hu Hp]|Hno].
    + rewrite elem_of_union, elem_of_singleton. tauto.
    + tauto.
  - apply set_eq. intros i.
    assert (i ∈ favourite_ids uid (deleteFavourite req db).1
            ↔ i ∈ favourite_ids uid db
              ∧ ¬ (user_id_of req = uid ∧ i = params_pokemon_id req)) as ->.
    { rewrite !elem_of_favourite_ids.
      destruct (decide (favourite_of req ∈ Favourite_rows db)) as [Hin|Hin].
      - rewrite (deleteFavourite_present _ _ Hin). simpl.
        rewrite list_elem_of_filter. unfold same_pair. simpl. split.
        * intros [Hns Hf]. split; [done|]. intros [Hu Hi].
          apply Hns. by split.
        * intros [Hf Hn]. split; [|done]. intros [Hu Hi].
          apply Hn. by split.
      - rewrite (deleteFavourite_absent _ _ Hin). simpl.
        split; [|tauto]. intros Hf. split; [done|].
        intros [<- ->]. done. }
    destruct (decide _) as [Hu|Hno].
    + rewrite elem_of_difference, elem_of_singleton. tauto.
    + tauto.
Qed.

Lemma favourites_behave_as_a_set_witness :
  let db := kanto_db [likes 7 4; likes 7 25; likes 8 25] in
  favourite_ids 7 db = {[ 4%Z; 25%Z ]}
  ∧ favourite_ids 7 (deleteFavourite (ash_likes 25) db).1
    = favourite_ids 7 db ∖ {[ 25%Z ]}
  ∧ favourite_ids 8 (deleteFavourite (ash_likes 25) db).1
    = favourite_ids 8 db
  ∧ favourite_ids 7 (createFavourite true (ash_likes 25)
                       (kanto_db [likes 7 4; likes 8 25])).1
    = {[ 25%Z ]} ∪ favourite_ids 7 (kanto_db [likes 7 4; likes 8 25]).
Proof.
  intros db.
  assert (unique_pairs (Favourite_rows db)) as Hu.
  { apply NoDup_unique_pairs. apply (bool_decide_unpack _). vm_compute.
    reflexivity. }
  split_and!.
  - apply (bool_decide_unpack _). vm_compute. reflexivity.
  - apply (proj2 (favourites_behave_as_a_set true (ash_likes 25) 7 db) Hu).
  - apply (proj2 (favourites_behave_as_a_set true (ash_likes 25) 8 db) Hu).
  - apply (proj1 (favourites_behave_as_a_set true (ash_likes 25) 7
                    (kanto_db [likes 7 4; likes 8 25]))).
Defined.

(** X17: a second add of the same favourite, whatever the first one did,
    changes no table and is not answered with 201. *)
Theorem createFavourite_again_changes_nothing
    (uq : bool) (req : Request) (db : Db) :
  let db1 := (createFavourite uq req db).1 in
  (createFavourite uq req db1).1 = db1
  ∧ (createFavourite uq req db1).2 ≠ created req.
Proof.
  intros db1.
  destruct (Pokemon_rows db !! params_pokemon_id req) as [n|] eqn:Hn.
  - assert (is_Some (Pokemon_rows db !! params_pokemon_id req)) as Hp
      by eauto.
    destruct (createFavourite_rows uq req db Hp) as [Hin _]. fold db1 in Hin.
    rewrite createFavourite_duplicate; [done| |done].
    subst db1. by rewrite (proj1 (createFavourite_reads_only uq req db)).
  - assert (db1 = db) as ->
      by (subst db1; by rewrite (createFavourite_missing _ _ _ Hn)).
    by rewrite (createFavourite_missing _ _ _ Hn).
Qed.

(** ** Races the store does not referee *)

Lemma take_turn_first_stage uq req st p2 db :
  take_turn First {| store := db; first := prog_of uq req st; second := p2 |}
  = {| store := (stage_step uq req st db).1;
       first := prog_of uq req (stage_step uq req st db).2;
       second := p2 |}.
Proof. unfold take_turn. simpl. by rewrite step_prog_of. Qed.

Lemma take_turn_second_stage uq req st p1 db :
  take_turn Second {| store := db; first := p1; second := prog_of uq req st |}
  = {| store := (stage_step uq req st db).1;
       first := p1;
       second := prog_of uq req (stage_step uq req st db).2 |}.
Proof. unfold take_turn. simpl. by rewrite step_prog_of. Qed.

(** X10: on a store that does not enforce the uniqueness constraint, two
    adds of a fresh pair for an existing catalog entry that both look
    before either inserts both answer 201 and store the row twice, so the
    table no longer has at most one row per pair: the handler's own check
    does not keep the invariant across its awaits. *)
Theorem unrefereed_adds_store_two_rows (req : Request) (db : Db) :
  is_Some (Pokemon_rows db !! params_pokemon_id req) →
  favourite_of req ∉ Favourite_rows db →
  let s := interleave [First; Second; First; Second; First; Second]
             {| store := db;
                first := createFavourite_body false req;
                second := createFavourite_body false req |} in
  Favourite_rows (store s)
    = Favourite_rows db ++ [favourite_of req; favourite_of req]
  ∧ settled (first s) = Some (Resolved (created req))
  ∧ settled (second s) = Some (Resolved (created req))
  ∧ ¬ unique_pairs (Favourite_rows (store s)).
Proof.
  intros [n Hn] Hfresh s.
  assert (s = {| store := set_Favourite_rows
                   (Favourite_rows db
                      ++ [favourite_of req; favourite_of req]) db;
                 first := prog_of false req (Ended (Resolved (created req)));
                 second := prog_of false req
                             (Ended (Resolved (created req))) |}) as ->.
  { subst s.
    change (createFavourite_body false req) with (prog_of false req AtLookup).
    cbn [interleave].
    rewrite take_turn_first_stage. cbn [stage_step fst snd]. rewrite Hn.
    rewrite take_turn_second_stage. cbn [stage_step fst snd]. rewrite Hn.
    rewrite take_turn_first_stage. cbn [stage_step fst snd].
    rewrite decide_False by done.
    rewrite take_turn_second_stage. cbn [stage_step fst snd].
    rewrite decide_False by done.
    rewrite take_turn_first_stage. cbn [stage_step fst snd andb].
    rewrite take_turn_second_stage.
    cbn [stage_step fst snd andb Favourite_rows set_Favourite_rows].
    by rewrite <- app_assoc. }
  cbn [store first second prog_of settled Favourite_rows set_Favourite_rows].
  split_and!; try done.
  intros Hu.
  specialize (Hu (user_id_of req) (params_pokemon_id req)). revert Hu.
  rewrite rows_for_app, length_app. unfold rows_for at 2.
  rewrite !filter_cons, filter_nil.
  rewrite !decide_True by (by split). simpl. lia.
Qed.

Lemma unrefereed_adds_store_two_rows_witness :
  let s := interleave [First; Second; First; Second; First; Second]
             {| store := pikachu_db [];
                first := createFavourite_body false (ash_likes 25);
                second := createFavourite_body false (ash_likes 25) |} in
  Favourite_rows (store s)
    = [] ++ [favourite_of (ash_likes 25); favourite_of (ash_likes 25)]
  ∧ settled (first s) = Some (Resolved (created (ash_likes 25)))
  ∧ settled (second s) = Some (Resolved (created (ash_likes 25)))
  ∧ ¬ unique_pairs (Favourite_rows (store s)).
Proof.
  apply (unrefereed_adds_store_two_rows (ash_likes 25) (pikachu_db [])).
  - vm_compute. eauto.
  - apply not_elem_of_nil.
Defined.

Lemma step_delete_prog_of req st db :
  step (delete_prog_of req st) db =
    ((delete_stage_step req st db).1,
     delete_prog_of req (delete_stage_step req st db).2).
Proof.
  destruct st as [| |[r|e]]; try done.
  simpl. destruct (decide _) as [Hin|Hin].
  - destruct (rows_for _ _ _) as [|f fs] eqn:E.
    + by apply rows_for_request in E.
    + assert (f ∈ rows_for (user_id_of req) (params_pokemon_id req)
                          (Favourite_rows db)) as Hf
        by (rewrite E; apply list_elem_of_here).
      apply rows_for_elem in Hf as [-> _]. done.
  - apply rows_for_request in Hin. by rewrite Hin.
Qed.

Lemma delete_stage_step_awaits_left req st db :
  delete_awaits_left (delete_stage_step req st db).2
  ≤ pred (delete_awaits_left st).
Proof. destruct st; simpl; repeat case_match; simpl; lia. Qed.

Lemma destroy_twice uid pid (rows : list Favourite) :
  filter (λ g, ¬ same_pair uid pid g)
         (filter (λ g, ¬ same_pair uid pid g) rows)
  = filter (λ g, ¬ same_pair uid pid g) rows.
Proof. by apply list_filter_filter_l. Qed.

Lemma destroy_leaves_no_row uid pid (rows : list Favourite) :
  {| user_id := uid; pokemon_id := pid |}
    ∉ filter (λ g, ¬ same_pair uid pid g) rows.
Proof.
  apply rows_for_nil_iff. rewrite rows_for_destroy. by rewrite decide_True.
Qed.

Section RemoveRace.

Variable req : Request.
Variable rows0 : list Favourite.

Lemma delete_race_inv_sym db st1 st2 :
  delete_race_inv req rows0 db st1 st2 →
  delete_race_inv req rows0 db st2 st1.
Proof. unfold delete_race_inv. tauto. Qed.

Lemma delete_race_inv_step db st1 st2 :
  delete_race_inv req rows0 db st1 st2 →
  delete_race_inv req rows0 (delete_stage_step req st1 db).1
                  (delete_stage_step req st1 db).2 st2.
Proof.
  unfold delete_race_inv, delete_wins.
  intros (Ha & Hok1 & Hok2 & Hc1 & Hc2 & He & Hf).
  destruct st1 as [| |s]; simpl.
  - destruct (decide _) as [Hin|Hin]; simpl.
    + split_and!; try done.
      * destruct Ha as [Ha|[Ha [?|?]]]; [by left|done|right; auto].
      * intros _. right. left. by left.
      * intros Hnot. exfalso. apply Hnot.
        destruct Ha as [<-|[Ha _]]; [done|].
        rewrite Ha in Hin. by apply list_elem_of_filter in Hin as [_ ?].
    + split_and!; try done.
      * destruct Ha as [Ha|[Ha [?|?]]]; [by left|done|right; auto].
      * by right.
      * intros H0. destruct (He H0) as [[_ ->]|[[?|?]|Hw]]; try done.
        -- destruct Ha as [Ha|[_ [?|?]]]; try done. by rewrite Ha in Hin.
        -- by right; right.
      * intros H0. destruct (Hf H0) as [_ Hn2]. split; [|done].
        by intros [?|?].
  - split_and!.
    + right. split; [|by left].
      destruct Ha as [->|[-> _]]; [done | apply destroy_twice].
    + by left.
    + done.
    + intros _. apply destroy_leaves_no_row.
    + intros _. apply destroy_leaves_no_row.
    + intros _. right. left. by right.
    + intros H0. destruct (Hf H0) as [Hn1 _]. destruct Hn1. by left.
  - split_and!; done.
Qed.

Lemma delete_take_turn_inv t s n1 n2 :
  delete_flight_inv req rows0 s n1 n2 →
  delete_flight_inv req rows0 (take_turn t s)
    (if decide (t = First) then pred n1 else n1)
    (if decide (t = Second) then pred n2 else n2).
Proof.
  intros (st1 & st2 & H1 & H2 & Hinv & Hn1 & Hn2).
  destruct t; unfold take_turn.
  - rewrite H1, step_delete_prog_of.
    exists (delete_stage_step req st1 (store s)).2, st2. simpl.
    split_and!; try done.
    + by apply delete_race_inv_step.
    + pose proof (delete_stage_step_awaits_left req st1 (store s)). lia.
  - rewrite H2, step_delete_prog_of.
    exists st1, (delete_stage_step req st2 (store s)).2. simpl.
    split_and!; try done.
    + by apply delete_race_inv_sym, delete_race_inv_step,
               delete_race_inv_sym.
    + pose proof (delete_stage_step_awaits_left req st2 (store s)). lia.
Qed.

Lemma delete_interleave_inv sched s n1 n2 :
  delete_flight_inv req rows0 s n1 n2 →
  delete_flight_inv req rows0 (interleave sched s)
    (n1 - turns_of First sched) (n2 - turns_of Second sched).
Proof.
  revert s n1 n2. induction sched as [|t sched IH]; intros s n1 n2 Hs.
  - unfold turns_of. simpl. by rewrite !Nat.sub_0_r.
  - simpl. apply (delete_take_turn_inv t) in Hs. apply IH in Hs.
    unfold turns_of in *. rewrite !filter_cons.
    destruct t; simpl in *.
    + replace (n1 - S (length (filter (λ t', t' = First) sched)))
        with (pred n1 - length (filter (λ t', t' = First) sched)) by lia.
      done.
    + replace (n2 - S (length (filter (λ t', t' = Second) sched)))
        with (pred n2 - length (filter (λ t', t' = Second) sched)) by lia.
      done.
Qed.

End RemoveRace.

Lemma delete_flight_inv_start req db :
  delete_flight_inv req (Favourite_rows db)
    {| store := db;
       first := deleteFavourite_body req;
       second := deleteFavourite_body req |} 2 2.
Proof.
  exists AtFind, AtFind. unfold delete_race_inv, delete_wins. simpl.
  split_and!; try done; auto.
  intros _. split; by intros [?|?].
Qed.

(** X11: two removes of the same pair on a table with at most one row per
    pair, in whatever order the two handlers take their steps: once each
    has had its two turns both have ended, each with the 204 response or
    the 404 "doesn't like" error; the table is the one they started from
    without the row of the pair; if the pair had a row at least one of
    them answers 204 (and both may), and if it had none both answer
    404. *)
Theorem concurrent_removes (req : Request) (db : Db) (sched : list Turn) :
  unique_pairs (Favourite_rows db) →
  2 ≤ turns_of First sched →
  2 ≤ turns_of Second sched →
  let s := interleave sched
             {| store := db;
                first := deleteFavourite_body req;
                second := deleteFavourite_body req |} in
  ∃ r1 r2,
    settled (first s) = Some (Resolved r1)
    ∧ settled (second s) = Some (Resolved r2)
    ∧ Favourite_rows (store s)
      = filter (λ g, ¬ same_pair (user_id_of req) (params_pokemon_id req) g)
               (Favourite_rows db)
    ∧ (r1 = deleted req
       ∨ r1 = Next (err_not_liked (user_id_of req) (params_pokemon_id req)))
    ∧ (r2 = deleted req
       ∨ r2 = Next (err_not_liked (user_id_of req) (params_pokemon_id req)))
    ∧ (favourite_of req ∈ Favourite_rows db →
       r1 = deleted req ∨ r2 = deleted req)
    ∧ (favourite_of req ∉ Favourite_rows db →
       r1 = Next (err_not_liked (user_id_of req) (params_pokemon_id req))
       ∧ r2 = Next (err_not_liked (user_id_of req) (params_pokemon_id req))).
Proof.
  intros _ Ht1 Ht2 s.
  destruct (delete_interleave_inv req _ sched _ 2 2
              (delete_flight_inv_start req db))
    as (st1 & st2 & H1 & H2 & Hinv & Hn1 & Hn2).
  fold s in H1, H2, Hinv.
  destruct Hinv as (Ha & Hok1 & Hok2 & Hc1 & _ & He & Hf).
  destruct st1 as [| |s1]; simpl in Hn1; try lia.
  destruct st2 as [| |s2]; simpl in Hn2; try lia.
  simpl in Hok1, Hok2. unfold delete_wins in *.
  assert (∃ r1, s1 = Resolved r1
            ∧ (r1 = deleted req
               ∨ r1 = Next (err_not_liked (user_id_of req)
                                          (params_pokemon_id req))))
    as (r1 & -> & Hr1) by (destruct Hok1 as [->| ->]; eauto).
  assert (∃ r2, s2 = Resolved r2
            ∧ (r2 = deleted req
               ∨ r2 = Next (err_not_liked (user_id_of req)
                                          (params_pokemon_id req))))
    as (r2 & -> & Hr2) by (destruct Hok2 as [->| ->]; eauto).
  exists r1, r2. rewrite H1, H2. split_and!; try done.
  - destruct Ha as [Ha|[Ha _]]; [|done].
    specialize (Hc1 eq_refl). rewrite Ha in Hc1. rewrite Ha.
    symmetry. apply destroy_absent. by apply rows_for_nil_iff.
  - intros Hin. destruct (He Hin) as [[? _]|[[?|Hw]|[?|Hw]]]; try done.
    + left. by inversion Hw.
    + right. by inversion Hw.
  - intros Hnin. destruct (Hf Hnin) as [Hn1' Hn2'].
    split.
    + destruct Hr1 as [->|?]; [|done]. destruct Hn1'. by right.
    + destruct Hr2 as [->|?]; [|done]. destruct Hn2'. by right.
Qed.

Lemma concurrent_removes_witness :
  let req := ash_likes 25 in
  let db := kanto_db [likes 7 4; likes 7 25; likes 8 25] in
  let s := interleave [First; Second; Second; First]
             {| store := db;
                first := deleteFavourite_body req;
                second := deleteFavourite_body req |} in
  ∃ r1 r2,
    settled (first s) = Some (Resolved r1)
    ∧ settled (second s) = Some (Resolved r2)
    ∧ Favourite_rows (store s)
      = filter (λ g, ¬ same_pair (user_id_of req) (params_pokemon_id req) g)
               (Favourite_rows db)
    ∧ (r1 = deleted req
       ∨ r1 = Next (err_not_liked (user_id_of req) (params_pokemon_id req)))
    ∧ (r2 = deleted req
       ∨ r2 = Next (err_not_liked (user_id_of req) (params_pokemon_id req)))
    ∧ (favourite_of req ∈ Favourite_rows db →
       r1 = deleted req ∨ r2 = deleted req)
    ∧ (favourite_of req ∉ Favourite_rows db →
       r1 = Next (err_not_liked (user_id_of req) (params_pokemon_id req))
       ∧ r2 = Next (err_not_liked (user_id_of req) (params_pokemon_id req))).
Proof.
  apply (concurrent_removes (ash_likes 25)
           (kanto_db [likes 7 4; likes 7 25; likes 8 25])
           [First; Second; Second; First]).
  - apply NoDup_unique_pairs. apply (bool_decide_unpack _). vm_compute.
    reflexivity.
  - vm_compute. lia.
  - vm_compute. lia.
Defined.

(** Both removes of that schedule answer 204, and the other rows stay. *)
Example concurrent_removes_both_204 :
  let s := interleave [First; Second; Second; First]
             {| store := kanto_db [likes 7 4; likes 7 25; likes 8 25];
                first := deleteFavourite_body (ash_likes 25);
                second := deleteFavourite_body (ash_likes 25) |} in
  settled (first s)
    = Some (Resolved (Sent {| statusCode := 204; body := None |}))
  ∧ settled (second s)
    = Some (Resolved (Sent {| statusCode := 204; body := None |}))
  ∧ Favourite_rows (store s) = [likes 7 4; likes 8 25].
Proof. vm_compute. repeat split. Qed.

(** ** The authentication bloc *)

Section AuthBlocFacts.

Context {AuthStatus User Exception AuthState : Type}.
Variables loading success failure : AuthStatus.
Variable toString : Exception → string.
Variable copyWith :
  AuthState → option AuthStatus → option User → option string → AuthState.

(** The status a state carries, and what is assumed of the missing
    [copyWith]: the status it is given is the status of its result. *)
Variable status : AuthState → AuthStatus.
Hypothesis copyWith_status :
  ∀ state st user error,
    status (copyWith state (Some st) user error) = st.
Hypothesis loading_is_not_success : loading ≠ success.
Hypothesis loading_is_not_failure : loading ≠ failure.

Variable repository : RepositoryCall → User + Exception.

Abbreviation login := (_login loading success failure toString copyWith).
Abbreviation register :=
  (_register loading success failure toString copyWith).
Abbreviation handle :=
  (handle_all loading success failure toString copyWith repository).

(** What either handler does once both credentials are there. *)
Lemma run_guarded_call (call : RepositoryCall) (state : AuthState) :
  let h :=
    Emit (λ state, copyWith state (Some loading) None None)
      (AwaitRepository call
         (λ answer,
            match answer with
            | inl user =>
                Emit (λ state,
                        copyWith state (Some success) (Some user) None)
                     Finished
            | inr e =>
                Emit (λ state,
                        copyWith state (Some failure) None
                                 (Some (toString e)))
                     Finished
            end)) in
  let busy := copyWith state (Some loading) None None in
  run_handler repository h state =
    match repository call with
    | inl user =>
        (copyWith busy (Some success) (Some user) None,
         [Emitted busy; Called call;
          Emitted (copyWith busy (Some success) (Some user) None)])
    | inr e =>
        (copyWith busy (Some failure) None (Some (toString e)),
         [Emitted busy; Called call;
          Emitted (copyWith busy (Some failure) None (Some (toString e)))])
    end.
Proof. simpl. by destruct (repository call). Qed.

(** X12: a login with an empty email or an empty password does nothing: no
    state is emitted, the repository is not called and the state stays.
    Otherwise the handler emits a loading state, calls the repository's
    login once with the two credentials, and emits one more state: a
    success state given the returned user when the call returns, a failure
    state given the text of the exception when it throws. *)
Theorem login_reports_outcome (event : LoginEvent) (state : AuthState) :
  let result := run_handler repository (login event) state in
  let call :=
    RepositoryLogin (login_email event) (login_password event) in
  (isEmpty (login_email event) || isEmpty (login_password event) = true →
   result = (state, []))
  ∧ (isEmpty (login_email event) || isEmpty (login_password event) = false →
     ∃ busy,
       status busy = loading
       ∧ result.2 = [Emitted busy; Called call; Emitted result.1]
       ∧ match repository call with
         | inl user =>
             result.1 = copyWith busy (Some success) (Some user) None
             ∧ status result.1 = success
         | inr e =>
             result.1 = copyWith busy (Some failure) None (Some (toString e))
             ∧ status result.1 = failure
         end).
Proof.
  intros result call. subst result. unfold _login.
  destruct (isEmpty (login_email event) || isEmpty (login_password event)).
  - split; [done | by intros [=]].
  - split; [by intros [=]|]. intros _.
    subst call. rewrite run_guarded_call.
    exists (copyWith state (Some loading) None None).
    split; [apply copyWith_status|].
    destruct (repository _); simpl; by rewrite copyWith_status.
Qed.

(** X13: a registration with an empty email or an empty password does
    nothing.  Otherwise the handler emits a loading state, calls the
    repository's register once with the two credentials, and emits one
    more state: a success state given the returned user when the call
    returns, a failure state given the text of the exception when it
    throws. *)
Theorem register_reports_outcome (event : RegisterEvent) (state : AuthState) :
  let result := run_handler repository (register event) state in
  let call :=
    RepositoryRegister (register_email event) (register_password event) in
  (isEmpty (register_email event) || isEmpty (register_password event) = true
   → result = (state, []))
  ∧ (isEmpty (register_email event) || isEmpty (register_password event)
       = false →
     ∃ busy,
       status busy = loading
       ∧ result.2 = [Emitted busy; Called call; Emitted result.1]
       ∧ match repository call with
         | inl user =>
             result.1 = copyWith busy (Some success) (Some user) None
             ∧ status result.1 = success
         | inr e =>
             result.1 = copyWith busy (Some failure) None (Some (toString e))
             ∧ status result.1 = failure
         end).
Proof.
  intros result call. subst result. unfold _register.
  destruct (isEmpty (register_email event)
            || isEmpty (register_password event)).
  - split; [done | by intros [=]].
  - split; [by intros [=]|]. intros _.
    subst call. rewrite run_guarded_call.
    exists (copyWith state (Some loading) None None).
    split; [apply copyWith_status|].
    destruct (repository _); simpl; by rewrite copyWith_status.
Qed.

Lemma run_on_event (event : AuthEvent) (state : AuthState) :
  let result :=
    run_handler repository
      (on_event loading success failure toString copyWith event) state in
  (status state ≠ loading → status result.1 ≠ loading)
  ∧ calls_of result.2 = option_list (call_of event).
Proof.
  destruct event as [e|e]; simpl.
  - unfold _login.
    destruct (isEmpty (login_email e) || isEmpty (login_password e)); [done|].
    rewrite run_guarded_call.
    destruct (repository _); simpl; rewrite copyWith_status; split; congruence.
  - unfold _register.
    destruct (isEmpty (register_email e) || isEmpty (register_password e));
      [done|].
    rewrite run_guarded_call.
    destruct (repository _); simpl; rewrite copyWith_status; split; congruence.
Qed.

Lemma calls_of_app (effects effects' : list (BlocEffect AuthState)) :
  calls_of (effects ++ effects') = calls_of effects ++ calls_of effects'.
Proof. unfold calls_of. apply omap_app. Qed.

(** X14: when events are handled one after the other, a bloc that is not
    loading before is not loading after: no event leaves it waiting. *)
Theorem events_never_leave_loading
    (events : list AuthEvent) (state : AuthState) :
  status state ≠ loading →
  status (handle events state).1 ≠ loading.
Proof.
  revert state. induction events as [|event events IH]; intros state Hs;
    [done|].
  simpl. pose proof (run_on_event event state) as [Hrun _].
  destruct (run_handler repository _ state) as [state' effects].
  specialize (IH state' (Hrun Hs)).
  by destruct (handle_all _ _ _ _ _ _ events state').
Qed.

End AuthBlocFacts.

Lemma login_reports_outcome_witness :
  let result :=
    run_handler example_repository
      (_login example_loading example_success example_failure id
              example_copyWith example_login) example_state in
  let call :=
    RepositoryLogin (login_email example_login)
                    (login_password example_login) in
  (isEmpty (login_email example_login)
   || isEmpty (login_password example_login) = true →
   result = (example_state, []))
  ∧ (isEmpty (login_email example_login)
     || isEmpty (login_password example_login) = false →
     ∃ busy,
       example_status busy = example_loading
       ∧ result.2 = [Emitted busy; Called call; Emitted result.1]
       ∧ match example_repository call with
         | inl user =>
             result.1
             = example_copyWith busy (Some example_success) (Some user) None
             ∧ example_status result.1 = example_success
         | inr e =>
             result.1
             = example_copyWith busy (Some example_failure) None
                                (Some (id e))
             ∧ example_status result.1 = example_failure
         end).
Proof.
  apply (login_reports_outcome example_loading example_success
           example_failure id example_copyWith example_status).
  intros state st user error. reflexivity.
Defined.

Lemma register_reports_outcome_witness :
  let result :=
    run_handler example_repository
      (_register example_loading example_success example_failure id
                 example_copyWith example_register) example_state in
  let call :=
    RepositoryRegister (register_email example_register)
                       (register_password example_register) in
  (isEmpty (register_email example_register)
   || isEmpty (register_password example_register) = true →
   result = (example_state, []))
  ∧ (isEmpty (register_email example_register)
     || isEmpty (register_password example_register) = false →
     ∃ busy,
       example_status busy = example_loading
       ∧ result.2 = [Emitted busy; Called call; Emitted result.1]
       ∧ match example_repository call with
         | inl user =>
             result.1
             = example_copyWith busy (Some example_success) (Some user) None
             ∧ example_status result.1 = example_success
         | inr e =>
             result.1
             = example_copyWith busy (Some example_failure) None
                                (Some (id e))
             ∧ example_status result.1 = example_failure
         end).
Proof.
  apply (register_reports_outcome example_loading example_success
           example_failure id example_copyWith example_status).
  intros state st user error. reflexivity.
Defined.

Lemma events_never_leave_loading_witness :
  example_status
    (handle_all example_loading example_success example_failure id
       example_copyWith example_repository
       [OnLogin example_login; OnRegister example_register;
        OnLogin {| login_email := ""; login_password := "pikachu" |}]
       example_state).1
  ≠ example_loading.
Proof.
  apply (events_never_leave_loading example_loading example_success
           example_failure id example_copyWith example_status).
  - intros state st user error. reflexivity.
  - discriminate.
  - discriminate.
  - simpl. discriminate.
Defined.

(** The three events of that example: a login that succeeds, a
    registration that is refused, and a login without an email. *)
Example handle_all_example :
  handle_all example_loading example_success example_failure id
    example_copyWith example_repository
    [OnLogin example_login; OnRegister example_register;
     OnLogin {| login_email := ""; login_password := "pikachu" |}]
    example_state
  = ({| example_status := example_failure;
        example_user := Some "ash@pallet.town";
        example_error := Some "Exception: email already in use" |},
     [Emitted {| example_status := example_loading;
                 example_user := None; example_error := None |};
      Called (RepositoryLogin "ash@pallet.town" "pikachu");
      Emitted {| example_status := example_success;
                 example_user := Some "ash@pallet.town";
                 example_error := None |};
      Emitted {| example_status := example_loading;
                 example_user := Some "ash@pallet.town";
                 example_error := None |};
      Called (RepositoryRegister "ash@pallet.town" "pikachu");
      Emitted {| example_status := example_failure;
                 example_user := Some "ash@pallet.town";
                 example_error := Some "Exception: email already in use" |}]).
Proof. reflexivity. Qed.

(** X15: when events are handled one after the other, the repository is
    called once for each event that has both credentials, with that
    event's credentials and in the order of the events, and never for an
    event with an empty email or password. *)
Theorem events_call_repository_once_each
    {AuthStatus User Exception AuthState : Type}
    (loading success failure : AuthStatus) (toString : Exception → string)
    (copyWith : AuthState → option AuthStatus → option User →
                option string → AuthState)
    (repository : RepositoryCall → User + Exception)
    (events : list AuthEvent) (state : AuthState) :
  calls_of (handle_all loading success failure toString copyWith
                       repository events state).2
  = omap call_of events.
Proof.
  revert state. induction events as [|event events IH]; intros state;
    [done|].
  simpl.
  assert (calls_of (run_handler repository
            (on_event loading success failure toString copyWith event)
            state).2 = option_list (call_of event)) as Hcalls.
  { destruct event as [e|e]; simpl.
    - unfold _login.
      destruct (isEmpty (login_email e) || isEmpty (login_password e));
        [done|].
      simpl. by destruct (repository _).
    - unfold _register.
      destruct (isEmpty (register_email e) || isEmpty (register_password e));
        [done|].
      simpl. by destruct (repository _). }
  destruct (run_handler repository _ state) as [state' effects].
  specialize (IH state').
  destruct (handle_all _ _ _ _ _ _ events state') as [final effects'].
  simpl in *. rewrite calls_of_app, Hcalls, IH.
  by destruct (call_of event).
Qed.
